(** * Sparse-inference pipeline of the factorization-machines notebook

    A shallow embedding of the code cells of
    [03_factorization_machines_regression.ipynb] that carry behaviour of their
    own: the batched inference loop (cell 50), the accuracy expression
    (cell 53), the protobuf upload helper [writeDatasetToProtobuf] (cell 35)
    and the automatic conversion (cell 33).  Python integers are [Z]; the
    binary64 quotient that [int / int] produces is modelled bit-exactly over
    [Z]; calls that leave the notebook (the hosted predictor, the SageMaker
    serializer, S3) are parameters of the sections below and thread their
    state explicitly.  The record format itself is not in the notebook; the
    module [Codec] models it from the specification. *)

From Stdlib Require Import ZArith QArith Lia.
From Stdlib Require Floats.SpecFloat.
From stdpp Require Import base list numbers strings gmap.

Local Open Scope Z_scope.

(** ** Exceptions

    The first four are what Python, NumPy and the endpoint client raise.
    The other four are the error kinds that the specification names; the
    notebook defines no such classes and no cell constructs them. *)
Inductive exn : Type :=
  | ZeroDivisionError
  | OverflowError
  | ValueError
  | EndpointFailure (cause : string)
  | PredictionError (cause : exn) (batch_index : Z) (row_range : Z * Z)
  | ValidationError
  | EncodingError
  | DecodingError.

(** ** Binary64 quotients of integers *)
Module Float64.

Definition prec : Z := 53.
Definition emin : Z := -1074.
Definition emax : Z := 1024.

(** A finite non-negative double, [mant * 2 ^ expo]. *)
Record float64 : Type := F64 { mant : Z; expo : Z }.

(** [num / den] rounded to the nearest integer, ties to even. *)
Definition div_half_even (num den : Z) : Z :=
  let q := num / den in
  let r := num mod den in
  if 2 * r <? den then q
  else if den <? 2 * r then q + 1
  else if Z.even q then q else q + 1.

(** The rational [n / (b * 2 ^ e)] as a fraction of integers: a negative
    [e] scales the numerator, a positive one the denominator. *)
Definition scale_num (n e : Z) : Z := n * 2 ^ Z.max 0 (- e).
Definition scale_den (b e : Z) : Z := b * 2 ^ Z.max 0 e.

(** Exponent of the unit in the last place of [n / b], for [0 < n] and
    [0 < b]: the quotient scaled by it has exactly [prec] bits, unless the
    result is subnormal. *)
Definition quotient_exponent (n b : Z) : Z :=
  let e1 := Z.log2 n - Z.log2 b - prec in
  let e :=
    if 2 ^ prec <=? scale_num n e1 / scale_den b e1 then e1 + 1 else e1 in
  Z.max e emin.

(** The correctly rounded double nearest to [n / b], [0 <= n], [0 < b],
    before the range check. *)
Definition round_quotient (n b : Z) : float64 :=
  if n =? 0 then F64 0 0
  else
    let e := quotient_exponent n b in
    F64 (div_half_even (scale_num n e) (scale_den b e)) e.

Definition overflows (f : float64) : bool :=
  2 ^ emax <=? mant f * 2 ^ expo f.

(** Truncation towards zero, as [int(float)] does. *)
Definition trunc (f : float64) : Z :=
  scale_num (mant f) (- expo f) / scale_den 1 (- expo f).

(** The value of a double as a rational. *)
Definition F2Q (f : float64) : Q :=
  if 0 <=? expo f then inject_Z (mant f * 2 ^ expo f)
  else Qmake (mant f) (Z.to_pos (2 ^ (- expo f))).

End Float64.
Import Float64.

(** ** Python's [int / int] and [int(float)] *)

(** A Python float that is finite: a sign and a magnitude. *)
Record pyfloat : Type := PyFloat { negative : bool; magnitude : float64 }.

(** [a / b] on two Python integers: the exact quotient rounded once to
    binary64; division by zero and results beyond the double range raise. *)
Definition py_truediv (a b : Z) : exn + pyfloat :=
  if b =? 0 then inl ZeroDivisionError
  else
    let f := round_quotient (Z.abs a) (Z.abs b) in
    if overflows f then inl OverflowError
    else inr (PyFloat (xorb (a <? 0) (b <? 0)) f).

Definition py_int (x : pyfloat) : Z :=
  if negative x then - trunc (magnitude x) else trunc (magnitude x).

(** [int(a / b)], the expression that computes the batch count. *)
Definition int_truediv (a b : Z) : exn + Z :=
  match py_truediv a b with
  | inl e => inl e
  | inr q => inr (py_int q)
  end.

(** The same quotient computed by the reference implementation of IEEE 754
    division that ships with the Standard Library, compared by value. *)
Definition agrees_with_SFdiv (n b : positive) : bool :=
  let f := round_quotient (Z.pos n) (Z.pos b) in
  match SpecFloat.SFdiv prec emax
          (SpecFloat.S754_finite false n 0) (SpecFloat.S754_finite false b 0) with
  | SpecFloat.S754_finite false m e =>
      let lo := Z.min e (expo f) in
      Z.pos m * 2 ^ (e - lo) =? mant f * 2 ^ (expo f - lo)
  | SpecFloat.S754_zero false => mant f =? 0
  | SpecFloat.S754_infinity false => overflows f
  | _ => false
  end.

(** The quotient [n / b] is itself a double: [n / b = M * 2 ^ E] with a
    53-bit [M] and [E] in the exponent range of binary64. *)
Definition exactly_representable (n b : Z) : Prop :=
  exists M E, 0 <= M < 2 ^ prec /\ emin <= E /\ M * 2 ^ E < 2 ^ emax /\
    scale_num n E = M * scale_den b E.

(** ** Data model *)

(** One row of a sparse matrix: the columns of its non-zero entries and the
    entries themselves. *)
Record MatrixRow : Type := { columns : list Z; data : list Q }.

(** A [scipy.sparse] matrix of shape [(length rows, shape1)]. *)
Record SparseMatrix : Type := { shape1 : Z; rows : list MatrixRow }.

Definition shape0 (X : SparseMatrix) : Z := Z.of_nat (length (rows X)).

(** Python's [l[start:stop]]: negative bounds count from the end, and both
    bounds are clamped to the sequence. *)
Definition py_slice {A : Type} (l : list A) (start stop : Z) : list A :=
  let n := Z.of_nat (length l) in
  let clamp i := if i <? 0 then Z.max (i + n) 0 else Z.min i n in
  take (Z.to_nat (clamp stop - clamp start)) (drop (Z.to_nat (clamp start)) l).

(** [X[start:stop]] on a sparse matrix slices its rows. *)
Definition row_slice (X : SparseMatrix) (start stop : Z) : SparseMatrix :=
  {| shape1 := shape1 X; rows := py_slice (rows X) start stop |}.

(** One entry of [result['predictions']]. *)
Record PredictionResult (Label : Type) : Type :=
  { predicted_label : Label; score : Q }.
Arguments predicted_label {Label} _.
Arguments score {Label} _.

(** ** The batched inference loop (cell 50) *)
Section Runner.
Context {Label Endpoint : Type}.

(** [fm_predictor.predict]: a call to the hosted model.  It may change the
    state of the endpoint, and either raises or answers with the list
    under ['predictions']. *)
Variable predict :
  Endpoint -> SparseMatrix -> Endpoint * (string + list (PredictionResult Label)).

(** The variables the cell works on.  [submitted] is not a variable of
    the notebook: it records, in order, every matrix handed to
    [predict]. *)
Record cell_state : Type :=
  { endpoint : Endpoint;
    submitted : list SparseMatrix;
    predictions : list Label }.

Definition X_sample (X_pred : SparseMatrix) (batch_size i : Z) : SparseMatrix :=
  row_slice X_pred (i * batch_size) ((i + 1) * batch_size).

(** The body of [for i in range(batches)], run over the indices [idxs]. *)
Fixpoint batch_loop (X_pred : SparseMatrix) (batch_size : Z) (idxs : list Z)
    (st : cell_state) : cell_state * option exn :=
  match idxs with
  | [] => (st, None)
  | i :: idxs' =>
      let sample := X_sample X_pred batch_size i in
      let '(ep, answer) := predict (endpoint st) sample in
      match answer with
      | inl cause =>
          ({| endpoint := ep;
              submitted := submitted st ++ [sample];
              predictions := predictions st |},
           Some (EndpointFailure cause))
      | inr result =>
          batch_loop X_pred batch_size idxs'
            {| endpoint := ep;
               submitted := submitted st ++ [sample];
               predictions := predictions st ++ (predicted_label <$> result) |}
      end
  end.

(** [batches = int(X_pred.shape[0]/batch_size)] *)
Definition batches (X_pred : SparseMatrix) (batch_size : Z) : exn + Z :=
  int_truediv (shape0 X_pred) batch_size.

(** The whole cell; [None] means it ran to its end, and [predictions]
    then holds the array it leaves behind. *)
Definition run_batched (X_pred : SparseMatrix) (batch_size : Z) (ep : Endpoint)
    : cell_state * option exn :=
  let st := {| endpoint := ep; submitted := []; predictions := [] |} in
  match batches X_pred batch_size with
  | inl e => (st, Some e)
  | inr n => batch_loop X_pred batch_size (seqZ 0 n) st
  end.

(** What the endpoint answers to a sequence of calls, each call made in
    the state the previous one left. *)
Fixpoint answers (ep : Endpoint) (calls : list SparseMatrix)
    : list (string + list (PredictionResult Label)) :=
  match calls with
  | [] => []
  | B :: calls' =>
      let '(ep', answer) := predict ep B in answer :: answers ep' calls'
  end.

(** The calls the loop makes when none of them fails. *)
Definition planned_calls (X_pred : SparseMatrix) (batch_size n : Z)
    : list SparseMatrix :=
  X_sample X_pred batch_size <$> seqZ 0 n.

End Runner.

(** The partition the specification describes: [floor(len / batchSize)]
    chunks, chunk [i] holding rows [i * batchSize] up to
    [(i + 1) * batchSize - 1]. *)
Definition full_batches (d : SparseMatrix) (batchSize : Z) : list SparseMatrix :=
  (fun i : nat =>
     {| shape1 := shape1 d;
        rows := take (Z.to_nat batchSize) (drop (i * Z.to_nat batchSize)%nat (rows d)) |})
  <$> seq 0 (Z.to_nat (shape0 d / batchSize)).

(** ** The accuracy expression (cell 53) *)

(** A NumPy float64 that is not negative. *)
Inductive np_float64 : Type :=
  | NpFinite (f : float64)
  | NpInf
  | NpNaN.

(** The integer that [(double) k] denotes, for [0 <= k]. *)
Definition int_to_double (k : Z) : Z := trunc (round_quotient k 1).

(** [a / b] on NumPy integers, [0 <= a] and [0 <= b]: both operands are
    converted to double and divided; a zero divisor gives [nan] or [inf]
    with a warning, not an exception. *)
Definition np_true_divide (a b : Z) : np_float64 :=
  if b =? 0 then (if a =? 0 then NpNaN else NpInf)
  else NpFinite (round_quotient (int_to_double a) (int_to_double b)).

(** What [x == y] evaluates to on two one-dimensional arrays. *)
Inductive np_bools : Type :=
  | BoolArray (mask : list bool)
  | BoolScalar (v : bool).

Section Accuracy.
Context {Label : Type} `{EqDecision Label}.

(** Shapes that cannot be broadcast make [==] raise in NumPy 1.25 and
    later; earlier releases warn and answer the scalar [False]. *)
Variable shape_mismatch_raises : bool.

Definition np_equal (x y : list Label) : exn + np_bools :=
  if decide (length x = length y)
  then inr (BoolArray (zip_with (fun a b => bool_decide (a = b)) x y))
  else
    match x, y with
    | [a], _ => inr (BoolArray ((fun b => bool_decide (a = b)) <$> y))
    | _, [b] => inr (BoolArray ((fun a => bool_decide (a = b)) <$> x))
    | _, _ =>
        if shape_mismatch_raises then inl ValueError
        else inr (BoolScalar false)
    end.

(** [np.sum]: the number of [True] entries.  The sum is a 64-bit integer,
    which an array, whose length is below [2 ^ 63], cannot make wrap. *)
Definition np_sum (v : np_bools) : Z :=
  match v with
  | BoolArray mask => foldr (fun t acc => Z.b2z t + acc) 0 mask
  | BoolScalar t => Z.b2z t
  end.

(** [np.sum(Y_pred == predictions) / len(Y_pred)] *)
Definition accuracy (Y_pred predictions : list Label) : exn + np_float64 :=
  match np_equal Y_pred predictions with
  | inl e => inl e
  | inr v => inr (np_true_divide (np_sum v) (Z.of_nat (length Y_pred)))
  end.

(** The same expression under the name and with the argument order of the
    specification. *)
Definition computeAccuracy (predicted actual : list Label) : exn + np_float64 :=
  accuracy actual predicted.

(** The number of positions [i] with [predicted[i] == actual[i]]. *)
Definition matching_positions (predicted actual : list Label) : nat :=
  length (filter (fun i => predicted !! i = actual !! i) (seq 0 (length actual))).

End Accuracy.

(** ** The protobuf upload helper (cell 35) *)

(** Effects that reach outside the process. *)
Inductive io_event : Type :=
  | S3Upload (bucket object_key : string) (body : list Byte.byte)
  | DiskWrite (path : string) (body : list Byte.byte).

(** An [io.BytesIO] buffer. *)
Record BytesIO : Type := { content : list Byte.byte; position : nat }.

(** [buf.write(data)]: the bytes overwrite what lies at the position and
    extend the buffer where they reach beyond its end; a position beyond
    the end leaves a gap, which is filled with zero bytes. *)
Definition bytesio_write (buf : BytesIO) (data : list Byte.byte) : BytesIO :=
  {| content :=
       take (position buf) (content buf)
       ++ replicate (position buf - length (content buf)) Byte.x00
       ++ data
       ++ drop (position buf + length data) (content buf);
     position := position buf + length data |}.

Definition bytesio_seek (buf : BytesIO) (pos : nat) : BytesIO :=
  {| content := content buf; position := pos |}.

Definition bytesio_read (buf : BytesIO) : list Byte.byte :=
  drop (position buf) (content buf).

Section Upload.
Context {Label : Type}.

(** [smac.write_spmatrix_to_sparse_tensor] of the SageMaker SDK: the bytes
    it writes to the file object it is given, or the exception it
    raises. *)
Variable write_spmatrix_to_sparse_tensor :
  SparseMatrix -> list Label -> exn + list Byte.byte.

(** The answer of S3 to an upload: [None] when it is accepted. *)
Variable s3_answer : string -> string -> list Byte.byte -> option exn.

Definition writeDatasetToProtobuf (X : SparseMatrix) (y : list Label)
    (bucket prefix key : string) : list io_event * (exn + string) :=
  let buf := {| content := []; position := 0 |} in
  match write_spmatrix_to_sparse_tensor X y with
  | inl e => ([], inl e)
  | inr data =>
      let buf := bytesio_write buf data in
      let buf := bytesio_seek buf 0 in
      let obj := (prefix +:+ "/" +:+ key)%string in
      let body := bytesio_read buf in
      match s3_answer bucket obj body with
      | Some e => ([S3Upload bucket obj body], inl e)
      | None =>
          ([S3Upload bucket obj body],
           inr ("s3://" +:+ bucket +:+ "/" +:+ obj)%string)
      end
  end.

End Upload.

(** ** The automatic conversion (cell 33) *)

(** [DataFrame.values] on a row: one entry per column, zero where the row
    stores nothing. *)
Definition dense_row (ncols : Z) (r : MatrixRow) : list Q :=
  (fun j =>
     match list_find (fun entry => entry.1 = j) (zip (columns r) (data r)) with
     | Some (_, (_, v)) => v
     | None => 0%Q
     end)
  <$> seqZ 0 ncols.

(** [X.values]: the frame as a dense two-dimensional array. *)
Definition dataframe_values (X : SparseMatrix) : list (list Q) :=
  dense_row (shape1 X) <$> rows X.

Section Cell33.
Context {Label RecordSet : Type}.

(** [fm.record_set] of the SageMaker SDK, which converts and uploads the
    array it is given. *)
Variable record_set : list (list Q) -> list Label -> string -> RecordSet.


End Cell33.

(** ** The record codec of the specification

    The notebook holds no serializer and no deserializer of its own: the
    bytes come from [smac.write_spmatrix_to_sparse_tensor] of the SageMaker
    SDK, and nothing reads them back.  The definitions of this module follow
    sections 3, 4.1 and 6 of the specification instead. *)
Module Codec.
Section Wire.
Context {V : Type}.

(** Modelled from the spec: the fixed-width float of the wire, which the
    notebook leaves to the SDK serializer; [to_wire] rounds a value to the
    wire format and gives its bit pattern, [of_wire] reads a pattern back. *)
Variable to_wire : V -> Z.
Variable of_wire : Z -> V.

(** Modelled from the spec: the SparseRow of section 3, absent from the
    notebook, where a row is a row of a data frame. *)
Record SparseRow : Type :=
  { featureCount : Z; indices : list Z; values : list V; label : V }.

(** Modelled from the spec: the SparseDataset of section 3, an ordered
    sequence of rows; the notebook has no such type. *)
Definition SparseDataset : Type := list SparseRow.

(** Modelled from the spec: the BinaryRecordStream of section 3, as the
    sequence of its fixed-width fields; the notebook never sees the stream
    that the SDK writes.  The width of a field is left open, as in
    section 6. *)
Definition BinaryRecordStream : Type := list Z.

(** Modelled from the spec: the invariant of a SparseRow in section 3, which
    no cell of the notebook checks. *)
Definition valid_row (fc : Z) (r : SparseRow) : Prop :=
  featureCount r = fc /\
  length (indices r) = length (values r) /\
  NoDup (indices r) /\
  Forall (fun i => 0 <= i < fc) (indices r).

(** Modelled from the spec: the input constraints of [encode] in section
    4.1, missing from the notebook: a non-empty dataset of valid rows that
    share one feature count. *)
Definition valid_dataset (d : SparseDataset) : Prop :=
  d <> [] /\ exists fc, Forall (valid_row fc) d.

(** Modelled from the spec: the record layout of section 6, which the
    notebook delegates to the SDK: a length prefix, then the feature count,
    the non-zero count, the indices, the values and the label, here as the
    pieces the encoder writes one after the other. *)
Definition record_chunks (r : SparseRow) : list (list Z) :=
  let k := Z.of_nat (length (indices r)) in
  [ [3 + 2 * k]; [featureCount r]; [k];
    indices r; to_wire <$> values r; [to_wire (label r)] ].

(** Modelled from the spec: one serialized entry of the stream, the
    serializer being absent from the notebook. *)
Definition encode_row (r : SparseRow) : list Z := concat (record_chunks r).





(** Modelled from the spec: the rows that [encode] of section 4.1 accepts
    without an [EncodingError]; the notebook has no such check. *)
Definition row_ok (fc : Z) (r : SparseRow) : bool :=
  bool_decide (featureCount r = fc)
  && bool_decide (length (indices r) = length (values r))
  && bool_decide (NoDup (indices r)).

(** Modelled from the spec: [encode] of section 4.1, whose part the notebook
    hands to the SDK serializer: one record per row, in the order of the
    rows. *)
Definition encode (d : SparseDataset) : exn + BinaryRecordStream :=
  match d with
  | [] => inr []
  | r0 :: _ =>
      if forallb (row_ok (featureCount r0)) d
      then inr (flat_map encode_row d)
      else inl EncodingError
  end.

(** Modelled from the spec: the reading of one record body in [decode] of
    section 4.1, absent from the notebook; the declared count must match
    the fields present and every index must lie below the feature count. *)
Definition decode_record (body : list Z) : exn + SparseRow :=
  match body with
  | fc :: k :: fields =>
      if bool_decide (0 <= k /\ Z.of_nat (length fields) = 2 * k + 1) then
        let n := Z.to_nat k in
        if forallb (fun i => (0 <=? i) && (i <? fc)) (take n fields) then
          match drop (2 * n) fields with
          | [l] =>
              inr {| featureCount := fc;
                     indices := take n fields;
                     values := of_wire <$> take n (drop n fields);
                     label := of_wire l |}
          | _ => inl DecodingError
          end
        else inl DecodingError
      else inl DecodingError
  | _ => inl DecodingError
  end.

(** Modelled from the spec: the loop of [decode] of section 4.1 over the
    length-prefixed records, absent from the notebook; a prefix that
    reaches beyond the stream is a truncated record.  [fuel] bounds the
    number of records read. *)
Fixpoint decode_records (fuel : nat) (stream : BinaryRecordStream)
    : exn + SparseDataset :=
  match stream with
  | [] => inr []
  | len :: rest =>
      match fuel with
      | O => inl DecodingError
      | S fuel' =>
          if bool_decide (0 <= len <= Z.of_nat (length rest)) then
            match decode_record (take (Z.to_nat len) rest) with
            | inl e => inl e
            | inr r =>
                match decode_records fuel' (drop (Z.to_nat len) rest) with
                | inl e => inl e
                | inr rs => inr (r :: rs)
                end
            end
          else inl DecodingError
      end
  end.

(** Modelled from the spec: [decode] of section 4.1, which the notebook does
    not have; a stream never holds more records than fields. *)
Definition decode (stream : BinaryRecordStream) : exn + SparseDataset :=
  decode_records (length stream) stream.

(** Modelled from the spec: a row with its values and label at the numeric
    precision chosen for the wire (section 4.1); the notebook has no
    counterpart. *)
Definition at_wire_precision (r : SparseRow) : SparseRow :=
  {| featureCount := featureCount r;
     indices := indices r;
     values := (fun v => of_wire (to_wire v)) <$> values r;
     label := of_wire (to_wire (label r)) |}.

(** Modelled from the spec: a row whose values and label the wire format
    holds exactly; the notebook has no counterpart. *)
Definition on_wire (r : SparseRow) : Prop :=
  Forall (fun v => of_wire (to_wire v) = v) (values r) /\
  of_wire (to_wire (label r)) = label r.

End Wire.
End Codec.

(** ** The spot check of three rows (cell 51) *)
Section Cell51.
Context {Label Endpoint : Type}.
Variable predict :
  Endpoint -> SparseMatrix -> Endpoint * (string + list (PredictionResult Label)).

(** [fm_predictor.predict(X_pred[1000:1003])] and [Y_pred[1000:1003]]: the
    matrix that is submitted and the labels that are printed. *)
Definition spot_check_sample (X_pred : SparseMatrix) : SparseMatrix :=
  row_slice X_pred 1000 1003.

Definition spot_check (X_pred : SparseMatrix) (Y_pred : list Label) (ep : Endpoint)
    : Endpoint * (string + list (PredictionResult Label)) * list Label :=
  (predict ep (spot_check_sample X_pred), py_slice Y_pred 1000 1003).

End Cell51.

(** ** Configuration (cells 5, 10 and 38) *)

(** What indexing a list or a dict raises. *)
Inductive lookup_error : Type :=
  | IndexError
  | KeyError.

(** [l[i]] for a non-negative [i]. *)
Definition list_index {A : Type} (l : list A) (i : nat) : lookup_error + A :=
  match l !! i with
  | Some x => inr x
  | None => inl IndexError
  end.

(** [d[k]] on a dict. *)
Definition dict_index (d : gmap string string) (k : string) : lookup_error + string :=
  match d !! k with
  | Some v => inr v
  | None => inl KeyError
  end.

Definition project_name : string := "sagemaker-workshop-movie-recommender".

Definition available_regions : list string :=
  ["us-east-1"; "us-east-2"; "us-west-2"; "eu-west-1"]%string.

(** The region after cell 10: the region of the session, which may be
    [None], unless it is not in the list. *)
Definition region_name (session_region : option string) : lookup_error + string :=
  match session_region with
  | Some r =>
      if bool_decide (r ∈ available_regions) then inr r
      else list_index available_regions 0
  | None => list_index available_regions 0
  end.

(** ['{}-{}'.format(project_name, region_name)] *)
Definition default_bucket (region : string) : string :=
  (project_name +:+ "-" +:+ region)%string.

Definition fm_containers : gmap string string :=
  list_to_map
    [ ("us-west-2",
       "174872318107.dkr.ecr.us-west-2.amazonaws.com/factorization-machines:latest");
      ("us-east-1",
       "382416733822.dkr.ecr.us-east-1.amazonaws.com/factorization-machines:latest");
      ("us-east-2",
       "404615174143.dkr.ecr.us-east-2.amazonaws.com/factorization-machines:latest");
      ("eu-west-1",
       "438346466558.dkr.ecr.eu-west-1.amazonaws.com/factorization-machines:latest")
    ]%string.

(** [training_image = fm_containers[region_name]] *)
Definition training_image (region : string) : lookup_error + string :=
  dict_index fm_containers region.

(** ** The execution role (cell 7) *)

(** [s[start:stop]] on a string. *)
Definition str_slice (s : string) (start stop : Z) : string :=
  String.string_of_list_ascii (py_slice (String.list_ascii_of_string s) start stop).

Section Role.

(** The outcome of [get_execution_role()]: [None] when the call raises,
    whatever it raises; the bare [except:] makes no difference. *)
Variable get_execution_role : option string.

(** The lines that the [aws iam list-roles] pipeline prints. *)
Variable list_roles : list string.

(** The lines printed and the role returned, or the exception that leaves
    the function. *)
Definition get_sagemaker_role : list string * (lookup_error + string) :=
  match get_execution_role with
  | Some role => ([], inr role)
  | None =>
      match list_index list_roles 0 with
      | inl e => ([], inl e)
      | inr line =>
          let role := str_slice line 7 (-2) in
          ([("Found potential SageMaker service role: " +:+ role)%string], inr role)
      end
  end.

End Role.

(** ** The upload of the training set (cell 36) *)
Section Cell36.
Context {Label : Type}.
Variable write_spmatrix_to_sparse_tensor :
  SparseMatrix -> list Label -> exn + list Byte.byte.
Variable s3_answer : string -> string -> list Byte.byte -> option exn.

(** [writeDatasetToProtobuf(X.to_coo(), y, default_bucket, 'protobuf',
    'train')], with the bucket that cell 10 has named; [to_coo] changes the
    storage of the matrix and not its entries. *)
Definition train_data_location (region : string) (X : SparseMatrix) (y : list Label)
    : list io_event * (exn + string) :=
  writeDatasetToProtobuf write_spmatrix_to_sparse_tensor s3_answer
    X y (default_bucket region) "protobuf" "train".

End Cell36.

(** ** The validation cell (cell 53) *)
Section Cell53.
Context {Label : Type} `{EqDecision Label}.
Variable shape_mismatch_raises : bool.

(** [predictions[0]] followed by the accuracy expression: the value of the
    cell, or the exception that ends it.  Indexing an empty array raises
    before the expression is reached. *)
Definition validation_cell (Y_pred predictions : list Label)
    : (lookup_error + exn) + np_float64 :=
  match list_index predictions 0 with
  | inl e => inl (inl e)
  | inr _ =>
      match accuracy shape_mismatch_raises Y_pred predictions with
      | inl e => inl (inr e)
      | inr v => inr v
      end
  end.

End Cell53.

(** ** The check on one row (cell 48) *)
Section Cell48.
Context {Label Endpoint : Type}.
Variable predict :
  Endpoint -> SparseMatrix -> Endpoint * (string + list (PredictionResult Label)).

(** [int(r['predicted_label'])], which raises on a label that is not
    finite. *)
Variable int_of_label : Label -> exn + Z.

(** The three values that one printed line shows. *)
Record sanity_line : Type :=
  { true_label : Label; predicted_int : Z; printed_score : Q }.

(** The body of [for l,r in zip(true_labels, fm_result['predictions'])]:
    the lines printed, and the exception that ends the loop, if any. *)
Fixpoint print_lines (pairs : list (Label * PredictionResult Label))
    : list sanity_line * option exn :=
  match pairs with
  | [] => ([], None)
  | (l, r) :: pairs' =>
      match int_of_label (predicted_label r) with
      | inl e => ([], Some e)
      | inr k =>
          let '(lines, outcome) := print_lines pairs' in
          ({| true_label := l; predicted_int := k; printed_score := score r |} :: lines,
           outcome)
      end
  end.

(** The call and the loop of the cell; [X_pred[:1]] is [X_pred[0:1]].  The
    cell also prints the raw answer, which is not a line of the loop. *)
Definition sanity_check (X_pred : SparseMatrix) (Y_pred : list Label) (ep : Endpoint)
    : Endpoint * list sanity_line * option exn :=
  let '(ep', answer) := predict ep (row_slice X_pred 0 1) in
  match answer with
  | inl cause => (ep', [], Some (EndpointFailure cause))
  | inr result =>
      let true_labels := py_slice Y_pred 0 1 in
      let '(lines, outcome) := print_lines (zip true_labels result) in
      (ep', lines, outcome)
  end.

End Cell48.

(** ** Concrete inputs used by the examples below *)

(** Five one-hot rows over ten features: a user column and a movie column
    each. *)
Definition demo_rows : list MatrixRow :=
  [ {| columns := [1; 7]; data := [1%Q; 1%Q] |};
    {| columns := [0; 5]; data := [1%Q; 1%Q] |};
    {| columns := [2; 9]; data := [1%Q; 1%Q] |};
    {| columns := [1; 6]; data := [1%Q; 1%Q] |};
    {| columns := [3; 8]; data := [1%Q; 1%Q] |} ].

Definition demo_dataset : SparseMatrix := {| shape1 := 10; rows := demo_rows |}.

(** A stand-in for the hosted model: the label of a row is the sum of its
    columns; the state of the endpoint counts the calls it has served. *)
Definition stub_result (r : MatrixRow) : PredictionResult Z :=
  {| predicted_label := foldr Z.add 0 (columns r); score := 1 # 2 |}.

Definition stub_predict (calls : nat) (B : SparseMatrix)
    : nat * (string + list (PredictionResult Z)) :=
  (S calls, inr (stub_result <$> rows B)).

(** The same endpoint, failing on the call with index [k]. *)
Definition failing_predict (k : nat) (calls : nat) (B : SparseMatrix)
    : nat * (string + list (PredictionResult Z)) :=
  (S calls,
   if (calls =? k)%nat then inl "ModelError"%string
   else inr (stub_result <$> rows B)).

(** A matrix of [2 ^ 53 + 1] empty rows. *)
Definition huge_dataset : SparseMatrix :=
  {| shape1 := 1;
     rows := replicate (Z.to_nat (2 ^ 53 + 1)) {| columns := []; data := [] |} |}.

(** Stand-ins for the SDK serializer and for S3. *)
Definition stub_serializer (X : SparseMatrix) (y : list Z) : exn + list Byte.byte :=
  if decide (length (rows X) = length y)
  then inr (flat_map (fun _ => [Byte.x0a; Byte.x23; Byte.xd7; Byte.xce]) y)
  else inl ValueError.

Definition s3_accepts (bucket object_key : string) (body : list Byte.byte)
    : option exn := None.

(** The example of section 8 of the specification: five rows over ten
    features, values and labels held as float32 bit patterns, which is how
    the notebook stores them after [astype('float32')]. *)
Definition f32_1 : Z := 1065353216.
Definition f32_2 : Z := 1073741824.
Definition f32_3 : Z := 1077936128.
Definition f32_4 : Z := 1082130432.
Definition f32_5 : Z := 1084227584.

Definition example_dataset : Codec.SparseDataset (V := Z) :=
  [ Codec.Build_SparseRow 10 [1; 7] [f32_1; f32_1] f32_4;
    Codec.Build_SparseRow 10 [0; 5] [f32_1; f32_1] f32_3;
    Codec.Build_SparseRow 10 [2; 9] [f32_1; f32_1] f32_5;
    Codec.Build_SparseRow 10 [1; 6] [f32_1; f32_1] f32_4;
    Codec.Build_SparseRow 10 [3; 8] [f32_1; f32_1] f32_2 ].



(** A line of [aws iam list-roles] after [tr -d ' ']: the key [Arn], its
    value and a comma, with the double quotes of JSON. *)
Definition double_quote : string := String (Ascii.ascii_of_nat 34) EmptyString.

Definition arn_key : string :=
  (double_quote +:+ "Arn" +:+ double_quote +:+ ":" +:+ double_quote)%string.

Definition arn_end : string := (double_quote +:+ ",")%string.

Definition demo_arn : string :=
  "arn:aws:iam::123456789012:role/service-role/AmazonSageMaker-ExecutionRole-20180101T000000".

(** Labels for the five rows of [demo_dataset]. *)
Definition demo_labels : list Z := [8; 5; 11; 7; 0].

(** [int] on a label that is an integer already. *)
Definition int_of_Z (label : Z) : exn + Z := inr label.

(** * Properties of the binary64 quotient *)

Ltac pow2_pos e := assert (0 < 2 ^ e) by (apply Z.pow_pos_nonneg; lia).

(** On a table of small, huge, tiny and tied quotients the model and
    [SpecFloat.SFdiv] denote the same double. *)
Example round_quotient_agrees_with_SFdiv :
  forallb (fun '(n, b) => agrees_with_SFdiv n b)
    [ (2, 3); (1, 3); (5, 1); (1, 10); (22, 7); (4000000, 1000);
      (2 ^ 53 + 1, 1); (2 ^ 53 + 3, 1); (2 ^ 54 + 2, 1); (2 ^ 60 - 1, 3);
      (1, 2 ^ 1074); (1, 2 ^ 1075); (3, 2 ^ 1075); (1, 2 ^ 1080);
      (2 ^ 1023, 1); (2 ^ 1024 - 2 ^ 970, 1); (2 ^ 1030, 1) ]%positive = true.
Proof. by vm_compute. Qed.

Lemma div_half_even_bounds num den :
  0 < den ->
  num / den <= div_half_even num den <= num / den + 1.
Proof.
  intros Hd. unfold div_half_even.
  repeat case_match; lia.
Qed.

Lemma div_half_even_up num den :
  0 < den ->
  div_half_even num den = num / den + 1 -> den <= 2 * (num mod den).
Proof.
  intros Hd. unfold div_half_even.
  repeat case_match; lia.
Qed.

Lemma div_half_even_exact q den :
  0 < den -> div_half_even (q * den) den = q.
Proof.
  intros Hd. unfold div_half_even.
  rewrite Z.mod_mul, Z.div_mul by lia.
  case_match; lia.
Qed.

Lemma scale_shift e e' :
  e <= e' ->
  exists a c, 0 <= a /\ 0 <= c /\ a + c = e' - e /\
    (forall n, scale_num n e = scale_num n e' * 2 ^ a) /\
    (forall b, scale_den b e' = scale_den b e * 2 ^ c).
Proof.
  intros Hle.
  exists (Z.max 0 (- e) - Z.max 0 (- e')), (Z.max 0 e' - Z.max 0 e).
  split; [lia|]. split; [lia|]. split; [lia|].
  unfold scale_num, scale_den.
  split; intros x; rewrite <- Z.mul_assoc, <- Z.pow_add_r by lia; f_equal; f_equal; lia.
Qed.

Lemma scale_den_pos b e : 0 < b -> 0 < scale_den b e.
Proof. intros. unfold scale_den. apply Z.mul_pos_pos; [done|]. apply Z.pow_pos_nonneg; lia. Qed.

Lemma quotient_exponent_spec n b :
  0 < n -> 0 < b ->
  exists e, quotient_exponent n b = Z.max e emin /\
    2 ^ 52 * scale_den b e <= scale_num n e < 2 ^ 53 * scale_den b e.
Proof.
  intros Hn Hb. unfold quotient_exponent, prec.
  set (e1 := Z.log2 n - Z.log2 b - 53).
  destruct (Z.log2_spec n Hn) as [Hn1 Hn2], (Z.log2_spec b Hb) as [Hb1 Hb2].
  pose proof (Z.log2_nonneg n) as Hln. pose proof (Z.log2_nonneg b) as Hlb.
  assert (H1 : 2 ^ 52 * scale_den b e1 <= scale_num n e1 < 2 ^ 54 * scale_den b e1).
  { unfold scale_num, scale_den.
    rewrite !Z.pow_succ_r in * by lia.
    destruct (Z.le_gt_cases 0 e1) as [He|He].
    - rewrite (Z.max_l 0 (- e1)), (Z.max_r 0 e1) by lia.
      replace (Z.log2 n) with (Z.log2 b + (53 + e1)) in Hn1, Hn2 by lia.
      rewrite !Z.pow_add_r in Hn1, Hn2 by lia.
      pow2_pos e1.
      pow2_pos (Z.log2 b).
      change (2 ^ 0) with 1. nia.
    - rewrite (Z.max_r 0 (- e1)), (Z.max_l 0 e1) by lia.
      assert (Hp : 2 ^ Z.log2 n * 2 ^ (- e1) = 2 ^ Z.log2 b * 2 ^ 53).
      { rewrite <- !Z.pow_add_r by lia. f_equal. lia. }
      pow2_pos (- e1).
      pow2_pos (Z.log2 b).
      change (2 ^ 0) with 1. nia. }
  pose proof (scale_den_pos b e1 Hb) as Hd1.
  pose proof (Z_div_mod_eq_full (scale_num n e1) (scale_den b e1)) as Hdm.
  pose proof (Z.mod_pos_bound (scale_num n e1) (scale_den b e1) Hd1) as Hmod.
  destruct (Z.leb_spec (2 ^ 53) (scale_num n e1 / scale_den b e1)) as [Hge|Hlt].
  - exists (e1 + 1). split; [done|].
    assert (Hge' : 2 ^ 53 * scale_den b e1 <= scale_num n e1) by nia.
    destruct (scale_shift e1 (e1 + 1)) as (a & c & Ha & Hc & Hac & Hnum & Hden); [lia|].
    rewrite (Hnum n) in *. rewrite (Hden b).
    assert (a = 1 /\ c = 0 \/ a = 0 /\ c = 1) as [[-> ->]|[-> ->]] by lia;
      change (2 ^ 1) with 2 in *; change (2 ^ 0) with 1 in *; lia.
  - exists e1. split; [done|].
    split; [lia|]. nia.
Qed.

Lemma scale_num_0 n : scale_num n 0 = n.
Proof. unfold scale_num. change (Z.max 0 (- 0)) with 0. rewrite Z.pow_0_r. lia. Qed.
Lemma scale_den_0 b : scale_den b 0 = b.
Proof. unfold scale_den. change (Z.max 0 0) with 0. rewrite Z.pow_0_r. lia. Qed.

Lemma trunc_nonpos_expo m e :
  e <= 0 -> trunc (F64 m e) = m / 2 ^ (- e).
Proof.
  intros He. unfold trunc, scale_num, scale_den; simpl.
  rewrite Z.opp_involutive, (Z.max_l 0 e), (Z.max_r 0 (- e)) by lia.
  change (2 ^ 0) with 1. by rewrite Z.mul_1_r, Z.mul_1_l.
Qed.

Lemma trunc_nonneg_expo m e :
  0 <= e -> trunc (F64 m e) = m * 2 ^ e.
Proof.
  intros He. unfold trunc, scale_num, scale_den; simpl.
  rewrite Z.opp_involutive, (Z.max_r 0 e), (Z.max_l 0 (- e)) by lia.
  change (2 ^ 0) with 1. by rewrite Z.mul_1_r, Z.div_1_r.
Qed.

Lemma quotient_exponent_small n b :
  0 < n < 2 ^ 53 -> 0 < b -> quotient_exponent n b <= 0.
Proof.
  intros Hn Hb.
  destruct (quotient_exponent_spec n b) as (e & -> & Hlo & Hhi); [lia..|].
  unfold emin. apply Z.max_lub; [|lia].
  destruct (Z.le_gt_cases e 0) as [|Hpos]; [done|exfalso].
  destruct (scale_shift 0 e) as (a & c & Ha & Hc & Hac & Hnum & Hden); [lia|].
  rewrite Hden, scale_den_0 in Hlo. specialize (Hnum n). rewrite scale_num_0 in Hnum.
  assert (2 ^ 1 <= 2 ^ (a + c)) as Hp by (apply Z.pow_le_mono_r; lia).
  rewrite Z.pow_add_r in Hp by lia. change (2 ^ 1) with 2 in Hp.
  pow2_pos a.
  pow2_pos c.
  assert (2 ^ 52 * b * 2 <= n) by nia. lia.
Qed.

Lemma round_quotient_small n b :
  0 <= n < 2 ^ 53 -> 0 < b ->
  trunc (round_quotient n b) = n / b /\ overflows (round_quotient n b) = false.
Proof.
  intros Hn Hb. unfold round_quotient.
  destruct (Z.eqb_spec n 0) as [->|Hn0].
  { split; [|done]. rewrite trunc_nonneg_expo by done. by rewrite Z.div_0_l by lia. }
  pose proof (quotient_exponent_small n b ltac:(lia) Hb) as He.
  destruct (quotient_exponent_spec n b) as (eq & Heq & Hlo & Hhi); [lia..|].
  set (e := quotient_exponent n b) in *.
  assert (Hden : scale_den b e = b).
  { unfold scale_den. rewrite Z.max_l by lia. rewrite Z.pow_0_r. lia. }
  assert (Hnum : scale_num n e = n * 2 ^ (- e)).
  { unfold scale_num. by rewrite Z.max_r by lia. }
  rewrite Hden, Hnum.
  set (s := 2 ^ (- e)). assert (Hs : 0 < s) by (apply Z.pow_pos_nonneg; lia).
  set (m := div_half_even (n * s) b).
  pose proof (div_half_even_bounds (n * s) b Hb) as Hm. fold m in Hm.
  pose proof (div_half_even_up (n * s) b Hb) as Hup. fold m in Hup.
  pose proof (Z_div_mod_eq_full (n * s) b) as Hdm.
  pose proof (Z.mod_pos_bound (n * s) b Hb) as Hr.
  pose proof (Z_div_mod_eq_full n b) as Hdk.
  pose proof (Z.mod_pos_bound n b Hb) as Hrk.
  set (k := n / b) in *. set (q := (n * s) / b) in *. set (r := (n * s) mod b) in *.
  assert (Hkq : k * s <= q) by (apply Z.div_le_lower_bound; nia).
  assert (Hqk : q < (k + 1) * s) by (apply Z.div_lt_upper_bound; nia).
  assert (Hmk : m < (k + 1) * s).
  { destruct (Z.lt_ge_cases m ((k + 1) * s)) as [|Hbad]; [done|exfalso].
    assert (Hmq : m = q + 1) by lia. specialize (Hup Hmq).
    assert (Hb2 : 2 * s <= b) by nia.
    destruct (Z.max_spec eq emin) as [[Hc Hmax]|[Hc Hmax]]; rewrite Hmax in Heq.
    - assert (s = 2 ^ 1074) as Hsv by (unfold s; rewrite Heq; done).
      assert (2 ^ 53 < s) by (rewrite Hsv; done).
      assert (0 <= k) by (apply Z.div_pos; lia).
      nia.
    - subst eq.
      assert (scale_den b e = b) as Hd' by done.
      rewrite Hd', Hnum in Hlo. fold s in Hlo. nia. }
  split.
  - rewrite trunc_nonpos_expo by done. fold s.
    symmetry. apply Z.div_unique with (m - k * s). 2: lia. left. lia.
  - unfold overflows; simpl. apply Z.leb_gt.
    assert (0 <= k) by (apply Z.div_pos; lia).
    assert (k <= n) by (apply Z.div_le_upper_bound; nia).
    destruct (Z.eq_dec e 0) as [He0|He0].
    + rewrite He0. change (2 ^ 0) with 1. subst s. rewrite He0 in *. simpl in *.
      unfold emax. assert (2 ^ 54 < 2 ^ 1024) by (apply Z.pow_lt_mono_r; lia). lia.
    + rewrite Z.pow_neg_r by lia. unfold emax. rewrite Z.mul_0_r. by apply Z.pow_pos_nonneg.
Qed.

Lemma quotient_exponent_representable n b M E :
  0 < n -> 0 < b -> 0 <= M < 2 ^ prec -> emin <= E ->
  scale_num n E = M * scale_den b E ->
  quotient_exponent n b <= E.
Proof.
  intros Hn Hb HM HE Hex.
  destruct (quotient_exponent_spec n b) as (e & -> & Hlo & Hhi); [lia..|].
  apply Z.max_lub; [|done].
  destruct (Z.le_gt_cases e E) as [|Hgt]; [done|exfalso].
  destruct (scale_shift E e) as (a & c & Ha & Hc & Hac & Hnum & Hden); [lia|].
  rewrite Hnum in Hex. rewrite Hden in Hlo.
  assert (2 ^ 1 <= 2 ^ (a + c)) as Hp by (apply Z.pow_le_mono_r; lia).
  rewrite Z.pow_add_r in Hp by lia. change (2 ^ 1) with 2 in Hp.
  pow2_pos a.
  pow2_pos c.
  pose proof (scale_den_pos b E Hb). unfold prec in HM.
  assert (2 ^ 53 * scale_den b E <= M * scale_den b E) by nia.
  nia.
Qed.

Lemma round_quotient_representable n b :
  0 <= n -> 0 < b -> exactly_representable n b ->
  trunc (round_quotient n b) = n / b /\ overflows (round_quotient n b) = false.
Proof.
  intros Hn Hb (M & E & HM & HE & Hrange & Hex). unfold round_quotient.
  destruct (Z.eqb_spec n 0) as [->|Hn0].
  { split; [|done]. rewrite trunc_nonneg_expo by done. by rewrite Z.div_0_l by lia. }
  pose proof (quotient_exponent_representable n b M E ltac:(lia) Hb HM HE Hex) as He.
  set (e := quotient_exponent n b) in *.
  destruct (scale_shift e E He) as (a & c & Ha & Hc & Hac & Hnum & Hden).
  assert (Hexact : scale_num n e = (M * 2 ^ (E - e)) * scale_den b e).
  { rewrite Hnum, Hex, Hden, <- Hac, Z.pow_add_r by lia. ring. }
  rewrite Hexact, div_half_even_exact by (by apply scale_den_pos).
  set (m := M * 2 ^ (E - e)) in *.
  pow2_pos (E - e).
  split.
  - destruct (Z.le_gt_cases 0 e) as [Hpos|Hneg].
    + rewrite trunc_nonneg_expo by done.
      unfold scale_num, scale_den in Hexact.
      rewrite (Z.max_l 0 (- e)), (Z.max_r 0 e), Z.pow_0_r in Hexact by lia.
      apply Z.div_unique_exact; lia.
    + rewrite trunc_nonpos_expo by lia.
      unfold scale_num, scale_den in Hexact.
      rewrite (Z.max_r 0 (- e)), (Z.max_l 0 e), Z.pow_0_r in Hexact by lia.
      pow2_pos (- e).
      rewrite <- (Z.div_mul_cancel_r n b (2 ^ (- e))) by lia.
      rewrite Hexact, Z.mul_1_r, <- Z.div_div by lia.
      by rewrite Z.div_mul by lia.
  - unfold overflows; simpl. apply Z.leb_gt.
    destruct (Z.le_gt_cases 0 e) as [Hpos|Hneg].
    + unfold m. rewrite <- Z.mul_assoc, <- Z.pow_add_r by lia.
      by replace (E - e + e) with E by lia.
    + rewrite Z.pow_neg_r by lia. rewrite Z.mul_0_r. by apply Z.pow_pos_nonneg.
Qed.

(** * The loop, call by call *)

Example py_slice_inside : py_slice [10; 11; 12; 13; 14] 2 4 = [12; 13].
Proof. reflexivity. Qed.

Example py_slice_clamped : py_slice [10; 11; 12; 13; 14] 4 6 = [14].
Proof. reflexivity. Qed.

Example py_slice_beyond : py_slice [10; 11; 12; 13; 14] 6 8 = [].
Proof. reflexivity. Qed.

Example batch_count_five_by_two : batches demo_dataset 2 = inr 2.
Proof. by vm_compute. Qed.

Example batch_count_by_zero : batches demo_dataset 0 = inl ZeroDivisionError.
Proof. reflexivity. Qed.

Example run_batched_five_by_two :
  predictions (run_batched stub_predict demo_dataset 2 0%nat).1 = [8; 5; 11; 7].
Proof. by vm_compute. Qed.

Section RunnerFacts.
Context {Label Endpoint : Type}.
Variable predict :
  Endpoint -> SparseMatrix -> Endpoint * (string + list (PredictionResult Label)).
Variables (X_pred : SparseMatrix) (batch_size : Z).

Local Abbreviation sample := (X_sample X_pred batch_size).
Local Abbreviation loop := (batch_loop predict X_pred batch_size).

Lemma batch_loop_answered idxs st Rs :
  answers predict (endpoint st) (sample <$> idxs) = inr <$> Rs ->
  exists ep,
    loop idxs st =
      ({| endpoint := ep;
          submitted := submitted st ++ (sample <$> idxs);
          predictions := predictions st ++ (predicted_label <$> concat Rs) |},
       None).
Proof.
  revert st Rs. induction idxs as [|i idxs IH]; intros st Rs Hans; simpl in *.
  - destruct Rs; [|done]. exists (endpoint st). simpl. rewrite !app_nil_r. by destruct st.
  - destruct (predict (endpoint st) (sample i)) as [ep answer] eqn:Hcall.
    destruct Rs as [|R Rs]; [done|]. simpl in Hans.
    injection Hans as -> Hans.
    destruct (IH {| endpoint := ep;
                    submitted := submitted st ++ [sample i];
                    predictions := predictions st ++ (predicted_label <$> R) |} Rs Hans)
      as [ep' ->].
    exists ep'. simpl. by rewrite fmap_app, <- !app_assoc.
Qed.

Lemma batch_loop_failed idxs st Rs cause rest :
  answers predict (endpoint st) (sample <$> idxs) = (inr <$> Rs) ++ inl cause :: rest ->
  exists ep,
    loop idxs st =
      ({| endpoint := ep;
          submitted := submitted st ++ (sample <$> take (S (length Rs)) idxs);
          predictions := predictions st ++ (predicted_label <$> concat Rs) |},
       Some (EndpointFailure cause)).
Proof.
  revert st Rs. induction idxs as [|i idxs IH]; intros st Rs Hans; simpl in *.
  - by destruct Rs.
  - destruct (predict (endpoint st) (sample i)) as [ep answer] eqn:Hcall.
    destruct Rs as [|R Rs]; simpl in Hans.
    + injection Hans as -> Hans. exists ep. simpl. by rewrite app_nil_r.
    + injection Hans as -> Hans.
      destruct (IH {| endpoint := ep;
                      submitted := submitted st ++ [sample i];
                      predictions := predictions st ++ (predicted_label <$> R) |} Rs Hans)
        as [ep' ->].
      exists ep'. simpl. by rewrite fmap_app, <- !app_assoc.
Qed.

Lemma batch_loop_submitted idxs st :
  exists j : nat,
    (j <= length idxs)%nat /\
    submitted (loop idxs st).1 = submitted st ++ (sample <$> take j idxs) /\
    ((loop idxs st).2 = None -> j = length idxs).
Proof.
  revert st. induction idxs as [|i idxs IH]; intros st; simpl.
  - exists 0%nat. by rewrite app_nil_r.
  - destruct (predict (endpoint st) (sample i)) as [ep [cause|result]] eqn:Hcall.
    + exists 1%nat. simpl. rewrite ?take_0. split; [lia|]. by split.
    + destruct (IH {| endpoint := ep;
                      submitted := submitted st ++ [sample i];
                      predictions := predictions st ++ (predicted_label <$> result) |})
        as (j & Hj & Hsub & Hdone).
      exists (S j). simpl in *. rewrite Hsub, <- app_assoc. split; [lia|]. split; [done|].
      intros H. by rewrite Hdone.
Qed.
End RunnerFacts.

Lemma py_slice_chunk {A} (l : list A) (i b : nat) :
  py_slice l (Z.of_nat i * Z.of_nat b) ((Z.of_nat i + 1) * Z.of_nat b)
  = take b (drop (i * b) l).
Proof.
  unfold py_slice.
  destruct (Z.ltb_spec (Z.of_nat i * Z.of_nat b) 0) as [|_]; [lia|].
  destruct (Z.ltb_spec ((Z.of_nat i + 1) * Z.of_nat b) 0) as [|_]; [lia|].
  destruct (Nat.le_gt_cases (length l) (i * b)) as [Hout|Hin].
  - rewrite (drop_ge l (i * b)) by done. rewrite take_nil.
    rewrite drop_ge by lia. by rewrite take_nil.
  - rewrite (Z.min_l (Z.of_nat i * Z.of_nat b)) by lia.
    replace (Z.to_nat (Z.of_nat i * Z.of_nat b)) with (i * b)%nat by lia.
    destruct (Nat.le_gt_cases ((i + 1) * b) (length l)) as [Hfull|Hshort].
    + rewrite Z.min_l by lia. f_equal. lia.
    + rewrite Z.min_r by lia.
      rewrite !take_ge; [done| |]; rewrite length_drop; lia.
Qed.

Lemma concat_chunks {A} (l : list A) (b k : nat) :
  concat ((fun i : nat => take b (drop (i * b) l)) <$> seq 0 k) = take (k * b) l.
Proof.
  induction k as [|k IH]; [done|].
  rewrite seq_S, fmap_app, concat_app, IH. simpl. rewrite app_nil_r.
  rewrite take_take_drop. f_equal. lia.
Qed.

(** * Conversion of integers to double, and quotients in the unit interval *)
Lemma div_half_even_mono num1 num2 den :
  0 < den -> num1 <= num2 -> div_half_even num1 den <= div_half_even num2 den.
Proof.
  intros Hd Hle.
  pose proof (Z.div_le_mono num1 num2 den Hd Hle) as Hq.
  pose proof (div_half_even_bounds num1 den Hd) as H1.
  pose proof (div_half_even_bounds num2 den Hd) as H2.
  destruct (Z.eq_dec (num1 / den) (num2 / den)) as [Heq|Hne]; [|lia].
  pose proof (Z_div_mod_eq_full num1 den) as E1.
  pose proof (Z_div_mod_eq_full num2 den) as E2.
  unfold div_half_even in *. rewrite <- Heq in *.
  destruct (Z.even (num1 / den));
    repeat match goal with |- context [?a <? ?b] => destruct (Z.ltb_spec a b) end; lia.
Qed.

Lemma int_to_double_small k : 0 <= k < 2 ^ 53 -> int_to_double k = k.
Proof.
  intros Hk. unfold int_to_double.
  destruct (round_quotient_small k 1 Hk ltac:(lia)) as [-> _]. apply Z.div_1_r.
Qed.

Lemma int_to_double_big k :
  2 ^ 53 <= k ->
  exists e, 1 <= e /\ 2 ^ 52 * 2 ^ e <= k < 2 ^ 53 * 2 ^ e /\
    int_to_double k = div_half_even k (2 ^ e) * 2 ^ e.
Proof.
  intros Hk. unfold int_to_double, round_quotient.
  destruct (Z.eqb_spec k 0) as [->|_]; [done|].
  destruct (quotient_exponent_spec k 1) as (e & -> & Hlo & Hhi); [lia..|].
  assert (He : 1 <= e).
  { destruct (Z.le_gt_cases 1 e) as [|Hneg]; [done|exfalso].
    unfold scale_num, scale_den in Hhi.
    rewrite (Z.max_l 0 e), (Z.max_r 0 (- e)), Z.pow_0_r in Hhi by lia.
    pow2_pos (- e). nia. }
  exists e. rewrite Z.max_l by (unfold emin; lia).
  unfold scale_num, scale_den in *.
  rewrite (Z.max_r 0 e), (Z.max_l 0 (- e)), Z.pow_0_r in * by lia.
  rewrite Z.mul_1_r, Z.mul_1_l in *.
  split; [done|]. split; [lia|]. by rewrite trunc_nonneg_expo by lia.
Qed.

Lemma int_to_double_mono c n : 0 <= c <= n -> int_to_double c <= int_to_double n.
Proof.
  intros Hcn.
  destruct (Z.lt_ge_cases n (2 ^ 53)) as [Hn|Hn].
  { rewrite !int_to_double_small; lia. }
  destruct (int_to_double_big n Hn) as (en & Hen & Hbn & ->).
  assert (Hpn : 0 < 2 ^ en) by (apply Z.pow_pos_nonneg; lia).
  pose proof (div_half_even_bounds n (2 ^ en) Hpn) as Hmn.
  assert (Hqn : 2 ^ 52 <= n / 2 ^ en) by (apply Z.div_le_lower_bound; lia).
  destruct (Z.lt_ge_cases c (2 ^ 53)) as [Hc|Hc].
  { rewrite int_to_double_small by lia.
    assert (2 <= 2 ^ en) by (change 2 with (2 ^ 1) at 1; apply Z.pow_le_mono_r; lia).
    nia. }
  destruct (int_to_double_big c Hc) as (ec & Hec & Hbc & ->).
  assert (Hpc : 0 < 2 ^ ec) by (apply Z.pow_pos_nonneg; lia).
  pose proof (div_half_even_bounds c (2 ^ ec) Hpc) as Hmc.
  assert (Hqc : c / 2 ^ ec < 2 ^ 53) by (apply Z.div_lt_upper_bound; lia).
  destruct (Z.lt_trichotomy ec en) as [Hlt|[->|Hgt]].
  - assert (2 ^ (ec + 1) <= 2 ^ en) as Hp by (apply Z.pow_le_mono_r; lia).
    rewrite Z.pow_add_r in Hp by lia. change (2 ^ 1) with 2 in Hp. nia.
  - apply Z.mul_le_mono_nonneg_r; [lia|]. apply div_half_even_mono; lia.
  - exfalso.
    assert (2 ^ (en + 1) <= 2 ^ ec) as Hp by (apply Z.pow_le_mono_r; lia).
    rewrite Z.pow_add_r in Hp by lia. change (2 ^ 1) with 2 in Hp. nia.
Qed.

Lemma int_to_double_pos n : 0 < n -> 0 < int_to_double n.
Proof.
  intros Hn. pose proof (int_to_double_mono 1 n ltac:(lia)) as H.
  rewrite (int_to_double_small 1) in H by done. lia.
Qed.

Lemma round_quotient_unit a b :
  0 <= a <= b -> 0 < b -> (0 <= F2Q (round_quotient a b) <= 1)%Q.
Proof.
  intros Hab Hb. unfold round_quotient.
  destruct (Z.eqb_spec a 0) as [->|Ha0]; [done|].
  destruct (quotient_exponent_spec a b) as (e & Heq & Hlo & Hhi); [lia..|].
  assert (He : e < 0).
  { destruct (Z.lt_ge_cases e 0) as [|Hpos]; [done|exfalso].
    unfold scale_num, scale_den in Hlo.
    rewrite (Z.max_r 0 e), (Z.max_l 0 (- e)), Z.pow_0_r in Hlo by lia.
    pow2_pos e. nia. }
  set (e' := quotient_exponent a b) in *.
  assert (He' : e' < 0) by (unfold emin in Heq; lia).
  unfold scale_num, scale_den.
  rewrite (Z.max_l 0 e'), (Z.max_r 0 (- e')), Z.pow_0_r, Z.mul_1_r by lia.
  set (s := 2 ^ (- e')). assert (Hs : 0 < s) by (apply Z.pow_pos_nonneg; lia).
  pose proof (div_half_even_mono 0 (a * s) b Hb ltac:(nia)) as Hm0.
  pose proof (div_half_even_mono (a * s) (s * b) b Hb ltac:(nia)) as Hm1.
  rewrite (div_half_even_exact s b Hb) in Hm1.
  change 0 with (0 * b) in Hm0 at 1. rewrite (div_half_even_exact 0 b Hb) in Hm0.
  unfold F2Q; simpl. destruct (Z.leb_spec 0 e') as [|_]; [lia|].
  fold s. unfold Qle; simpl. rewrite Z2Pos.id by done. lia.
Qed.

Lemma length_filter_fmap {A B} (f : A -> B) (P : B -> Prop) `{!forall y, Decision (P y)}
    (l : list A) :
  length (filter P (f <$> l)) = length (filter (fun x => P (f x)) l).
Proof.
  induction l as [|x l IH]; [done|]. rewrite fmap_cons, !filter_cons.
  destruct (decide (P (f x))); simpl; by rewrite IH.
Qed.

Section AccuracyFacts.
Context {Label : Type} `{EqDecision Label}.

Lemma np_sum_bounds (mask : list bool) :
  0 <= np_sum (BoolArray mask) <= Z.of_nat (length mask).
Proof.
  induction mask as [|[] mask IH]; simpl in *; lia.
Qed.

Lemma np_sum_zip (actual predicted : list Label) :
  length predicted = length actual ->
  np_sum (BoolArray (zip_with (fun a b => bool_decide (a = b)) actual predicted))
  = Z.of_nat (matching_positions predicted actual).
Proof.
  unfold matching_positions.
  revert predicted. induction actual as [|a actual IH]; intros [|p predicted] Hlen;
    try done.
  injection Hlen as Hlen. specialize (IH predicted Hlen).
  cbn [length seq zip_with]. rewrite <- fmap_S_seq, filter_cons.
  cbn [np_sum foldr] in *. rewrite IH.
  destruct (decide ((p :: predicted) !! 0%nat = (a :: actual) !! 0%nat)) as [Heq|Hne].
  - injection Heq as ->. rewrite bool_decide_eq_true_2 by done.
    cbn [length]. rewrite length_filter_fmap. simpl. lia.
  - rewrite bool_decide_eq_false_2 by (simpl in Hne; congruence).
    rewrite length_filter_fmap. simpl. lia.
Qed.

Lemma length_zip_mask (actual predicted : list Label) :
  length predicted = length actual ->
  length (zip_with (fun a b => bool_decide (a = b)) actual predicted) = length actual.
Proof. intros H. rewrite length_zip_with. lia. Qed.
End AccuracyFacts.

(** * The batch count and the planned calls *)
Lemma int_truediv_small n b :
  0 <= n < 2 ^ 53 -> 0 < b -> int_truediv n b = inr (n / b).
Proof.
  intros Hn Hb. unfold int_truediv, py_truediv.
  destruct (Z.eqb_spec b 0) as [|_]; [lia|].
  rewrite (Z.abs_eq n), (Z.abs_eq b) by lia.
  destruct (round_quotient_small n b Hn Hb) as [Ht ->].
  unfold py_int; simpl.
  destruct (Z.ltb_spec n 0), (Z.ltb_spec b 0); try lia. simpl. by rewrite Ht.
Qed.

Lemma int_truediv_representable n b :
  0 <= n -> 0 < b -> exactly_representable n b -> int_truediv n b = inr (n / b).
Proof.
  intros Hn Hb Hrep. unfold int_truediv, py_truediv.
  destruct (Z.eqb_spec b 0) as [|_]; [lia|].
  rewrite (Z.abs_eq n), (Z.abs_eq b) by lia.
  destruct (round_quotient_representable n b Hn Hb Hrep) as [Ht ->].
  unfold py_int; simpl.
  destruct (Z.ltb_spec n 0), (Z.ltb_spec b 0); try lia. simpl. by rewrite Ht.
Qed.

Lemma seqZ_0 k : seqZ 0 k = Z.of_nat <$> seq 0 (Z.to_nat k).
Proof. unfold seqZ. apply list_fmap_ext. intros; lia. Qed.

Lemma X_sample_chunk X (i b : nat) :
  X_sample X (Z.of_nat b) (Z.of_nat i)
  = {| shape1 := shape1 X; rows := take b (drop (i * b) (rows X)) |}.
Proof. unfold X_sample, row_slice. by rewrite py_slice_chunk. Qed.

Lemma planned_calls_chunks X b k :
  0 <= b ->
  planned_calls X b k
  = (fun i : nat =>
       {| shape1 := shape1 X;
          rows := take (Z.to_nat b) (drop (i * Z.to_nat b) (rows X)) |})
    <$> seq 0 (Z.to_nat k).
Proof.
  intros Hb. unfold planned_calls. rewrite seqZ_0, <- list_fmap_compose.
  apply list_fmap_ext. intros _ i _. simpl.
  rewrite <- X_sample_chunk. by rewrite Z2Nat.id.
Qed.

Lemma planned_calls_rows X b k :
  0 <= b ->
  concat (rows <$> planned_calls X b k) = take (Z.to_nat k * Z.to_nat b) (rows X).
Proof.
  intros Hb. rewrite planned_calls_chunks, <- list_fmap_compose by done.
  apply (concat_chunks (rows X)).
Qed.

Lemma full_batches_planned d b :
  0 <= b -> full_batches d b = planned_calls d b (shape0 d / b).
Proof. intros. by rewrite planned_calls_chunks. Qed.

Lemma lookup_concat_offset {A} (ls : list (list A)) i l o :
  ls !! i = Some l -> (o < length l)%nat ->
  concat ls !! (length (concat (take i ls)) + o)%nat = l !! o.
Proof.
  revert i. induction ls as [|l0 ls IH]; intros [|i] Hi Ho; simplify_eq/=.
  - by rewrite lookup_app_l.
  - rewrite length_app, <- Nat.add_assoc, lookup_app_r by lia.
    rewrite <- (IH i) by done. f_equal. lia.
Qed.

Lemma one_result_per_row_lengths {Label} (Bs : list SparseMatrix)
    (Rs : list (list (PredictionResult Label))) i :
  Forall2 (fun B R => length R = length (rows B)) Bs Rs ->
  length (concat (take i Rs)) = length (concat (rows <$> take i Bs)).
Proof.
  intros H. revert i. induction H as [|B R Bs Rs HBR _ IH]; intros [|i]; try done.
  simpl. rewrite !length_app, HBR. f_equal. apply IH.
Qed.

Lemma run_batched_answered {Label Endpoint}
    (predict : Endpoint -> SparseMatrix -> Endpoint * (string + list (PredictionResult Label)))
    X b ep k Rs :
  batches X b = inr k ->
  answers predict ep (planned_calls X b k) = inr <$> Rs ->
  exists ep',
    run_batched predict X b ep =
      ({| endpoint := ep';
          submitted := planned_calls X b k;
          predictions := predicted_label <$> concat Rs |}, None).
Proof.
  intros Hk Hans. unfold run_batched. rewrite Hk.
  destruct (batch_loop_answered predict X b (seqZ 0 k)
              {| endpoint := ep; submitted := []; predictions := [] |} Rs Hans)
    as [ep' ->].
  by exists ep'.
Qed.

Lemma run_batched_failed {Label Endpoint}
    (predict : Endpoint -> SparseMatrix -> Endpoint * (string + list (PredictionResult Label)))
    X b ep k Rs cause rest :
  batches X b = inr k ->
  answers predict ep (planned_calls X b k) = (inr <$> Rs) ++ inl cause :: rest ->
  exists ep',
    run_batched predict X b ep =
      ({| endpoint := ep';
          submitted := take (S (length Rs)) (planned_calls X b k);
          predictions := predicted_label <$> concat Rs |},
       Some (EndpointFailure cause)).
Proof.
  intros Hk Hans. unfold run_batched. rewrite Hk.
  destruct (batch_loop_failed predict X b (seqZ 0 k)
              {| endpoint := ep; submitted := []; predictions := [] |} Rs cause rest Hans)
    as [ep' ->].
  exists ep'. simpl. unfold planned_calls. by rewrite fmap_take.
Qed.

(** * The batched inference loop *)

(** C1 (amended).  For every sparse dataset [d] with fewer than [2 ^ 53]
    rows, every positive [batchSize] and every predictor, the batches handed
    to [predict] are an initial segment of the full batches of [d], and all
    of them when no call fails: exactly [floor(len(d) / batchSize)] batches,
    batch [i] holding the [batchSize] rows [i * batchSize] up to
    [(i + 1) * batchSize - 1] in order, so that the rows from position
    [floor(len(d) / batchSize) * batchSize] on are never submitted. *)
Theorem runBatched_partitions_into_full_batches {Label Endpoint}
    (predict : Endpoint -> SparseMatrix -> Endpoint * (string + list (PredictionResult Label)))
    (d : SparseMatrix) (batchSize : Z) (ep : Endpoint) :
  0 < batchSize -> shape0 d < 2 ^ 53 ->
  submitted (run_batched predict d batchSize ep).1 `prefix_of` full_batches d batchSize
  /\ ((run_batched predict d batchSize ep).2 = None ->
      submitted (run_batched predict d batchSize ep).1 = full_batches d batchSize)
  /\ length (full_batches d batchSize) = Z.to_nat (shape0 d / batchSize)
  /\ (forall (i : nat) B, full_batches d batchSize !! i = Some B ->
        length (rows B) = Z.to_nat batchSize /\
        forall o : nat, (o < Z.to_nat batchSize)%nat ->
          rows B !! o = rows d !! (i * Z.to_nat batchSize + o)%nat)
  /\ concat (rows <$> full_batches d batchSize)
     = take (Z.to_nat (shape0 d / batchSize * batchSize)) (rows d).
Proof.
  intros Hb Hn.
  assert (Hcount : batches d batchSize = inr (shape0 d / batchSize)).
  { apply int_truediv_small; [unfold shape0 in *; lia|done]. }
  assert (Hk : 0 <= shape0 d / batchSize) by (apply Z.div_pos; unfold shape0; lia).
  assert (Hkb : shape0 d / batchSize * batchSize <= shape0 d).
  { rewrite Z.mul_comm. apply Z.mul_div_le. lia. }
  split; [|split; [|split; [|split]]].
  - unfold run_batched. rewrite Hcount.
    destruct (batch_loop_submitted predict d batchSize (seqZ 0 (shape0 d / batchSize))
                {| endpoint := ep; submitted := []; predictions := [] |})
      as (j & _ & -> & _).
    simpl. rewrite full_batches_planned by lia. unfold planned_calls.
    rewrite fmap_take. apply prefix_take.
  - unfold run_batched. rewrite Hcount.
    destruct (batch_loop_submitted predict d batchSize (seqZ 0 (shape0 d / batchSize))
                {| endpoint := ep; submitted := []; predictions := [] |})
      as (j & _ & -> & Hdone).
    intros Hnone. rewrite (Hdone Hnone), firstn_all. simpl.
    by rewrite full_batches_planned by lia.
  - unfold full_batches. by rewrite length_fmap, length_seq.
  - intros i B HB. unfold full_batches in HB.
    rewrite list_lookup_fmap in HB.
    destruct (seq 0 (Z.to_nat (shape0 d / batchSize)) !! i) as [i'|] eqn:Hi; [|done].
    apply lookup_seq in Hi as [-> Hi]. simpl in HB. injection HB as <-. simpl.
    assert (Hfit : (i * Z.to_nat batchSize + Z.to_nat batchSize <= length (rows d))%nat).
    { unfold shape0 in *. nia. }
    split.
    + rewrite length_take, length_drop. lia.
    + intros o Ho. rewrite lookup_take_lt by done. by rewrite lookup_drop.
  - rewrite full_batches_planned, planned_calls_rows by lia. f_equal. lia.
Qed.

(** The partition theorem at five rows and batches of two. *)
Lemma runBatched_partitions_into_full_batches_witness :
  (0 < 2 /\ shape0 demo_dataset < 2 ^ 53) /\
  submitted (run_batched stub_predict demo_dataset 2 0%nat).1
  = full_batches demo_dataset 2.
Proof.
  split; [split; [lia|by vm_compute]|].
  apply (runBatched_partitions_into_full_batches stub_predict demo_dataset 2 0%nat);
    [lia|by vm_compute|by vm_compute].
Defined.

Lemma stub_predict_answers calls c :
  answers stub_predict c calls = inr <$> ((fun B => stub_result <$> rows B) <$> calls).
Proof.
  revert c. induction calls as [|B calls IH]; intros c; [done|].
  simpl. by rewrite IH.
Qed.

Lemma shape0_huge_dataset : shape0 huge_dataset = 2 ^ 53 + 1.
Proof.
  unfold shape0, huge_dataset. cbn [rows].
  rewrite length_replicate. apply Z2Nat.id. by vm_compute.
Qed.

Lemma batch_count_huge_dataset : batches huge_dataset 1 = inr (2 ^ 53).
Proof. unfold batches. rewrite shape0_huge_dataset. by vm_compute. Qed.

(** C1, as stated, fails on a dataset of [2 ^ 53 + 1] rows with batches of
    one row: [int(9007199254740993 / 1)] is [9007199254740992], so the loop
    ends one batch short of [floor(len(d) / batchSize)] although no call
    failed. *)
Lemma runBatched_partition_counterexample :
  (run_batched stub_predict huge_dataset 1 0%nat).2 = None /\
  Z.of_nat (length (submitted (run_batched stub_predict huge_dataset 1 0%nat).1)) = 2 ^ 53 /\
  Z.of_nat (length (full_batches huge_dataset 1)) = 2 ^ 53 + 1 /\
  submitted (run_batched stub_predict huge_dataset 1 0%nat).1 <> full_batches huge_dataset 1.
Proof.
  destruct (run_batched_answered stub_predict huge_dataset 1 0%nat (2 ^ 53) _
              batch_count_huge_dataset (stub_predict_answers _ _)) as [ep' Hrun].
  rewrite Hrun. cbn [fst snd submitted].
  assert (H1 : Z.of_nat (length (planned_calls huge_dataset 1 (2 ^ 53))) = 2 ^ 53).
  { unfold planned_calls. rewrite length_fmap, length_seqZ. apply Z2Nat.id. by vm_compute. }
  assert (H2 : Z.of_nat (length (full_batches huge_dataset 1)) = 2 ^ 53 + 1).
  { unfold full_batches. rewrite length_fmap, length_seq, shape0_huge_dataset.
    rewrite Z.div_1_r. apply Z2Nat.id. by vm_compute. }
  split; [done|]. split; [done|]. split; [done|].
  intros Heq. rewrite Heq, H2 in H1. revert H1. by vm_compute.
Qed.

(** C4.  When the predictor answers every call with one result per row of
    the batch, the cell runs to its end; the rows it submitted, batch after
    batch, are the rows of [d] in their order; there are as many returned
    labels as submitted rows; and the label returned for row [o] of batch
    [i] sits at the position that this row has in [d]. *)
Theorem runBatched_preserves_row_order {Label Endpoint}
    (predict : Endpoint -> SparseMatrix -> Endpoint * (string + list (PredictionResult Label)))
    (d : SparseMatrix) (batchSize : Z) (ep : Endpoint) (k : Z)
    (Rs : list (list (PredictionResult Label))) :
  0 < batchSize ->
  batches d batchSize = inr k ->
  answers predict ep (planned_calls d batchSize k) = inr <$> Rs ->
  Forall2 (fun B R => length R = length (rows B)) (planned_calls d batchSize k) Rs ->
  exists st,
    run_batched predict d batchSize ep = (st, None) /\
    concat (rows <$> submitted st) `prefix_of` rows d /\
    length (predictions st) = length (concat (rows <$> submitted st)) /\
    forall (i o : nat) B R r,
      submitted st !! i = Some B -> Rs !! i = Some R -> R !! o = Some r ->
      rows B !! o = rows d !! (length (concat (rows <$> take i (submitted st))) + o)%nat /\
      predictions st !! (length (concat (rows <$> take i (submitted st))) + o)%nat
      = Some (predicted_label r).
Proof.
  intros Hb Hk Hans Hrows.
  destruct (run_batched_answered predict d batchSize ep k Rs Hk Hans) as [ep' Hrun].
  eexists. split; [exact Hrun|]. cbn [submitted predictions].
  pose proof (planned_calls_rows d batchSize k ltac:(lia)) as Hcat.
  split; [rewrite Hcat; apply prefix_take|].
  split.
  { rewrite length_fmap.
    rewrite <- (firstn_all Rs), <- (firstn_all (planned_calls d batchSize k)).
    rewrite (Forall2_length _ _ _ Hrows) at 1.
    by apply one_result_per_row_lengths. }
  intros i o B R r HB HR Hr.
  assert (Ho : (o < length (rows B))%nat).
  { rewrite <- (Forall2_lookup_lr _ _ _ i B R Hrows HB HR). by eapply lookup_lt_Some. }
  split.
  - assert (HB' : (rows <$> planned_calls d batchSize k) !! i = Some (rows B))
      by (by rewrite list_lookup_fmap, HB).
    pose proof (lookup_concat_offset _ i _ o HB' Ho) as Hrow.
    rewrite fmap_take, <- Hrow, Hcat.
    destruct (lookup_lt_is_Some_2 (rows B) o Ho) as [row Hrow'].
    rewrite Hrow' in Hrow. rewrite Hcat in Hrow.
    apply lookup_take_Some in Hrow as [_ Hlt].
    by rewrite lookup_take_lt.
  - rewrite <- (one_result_per_row_lengths _ _ i Hrows).
    rewrite list_lookup_fmap, (lookup_concat_offset Rs i R o HR) by (by eapply lookup_lt_Some).
    by rewrite Hr.
Qed.

(** Order preservation at five rows and batches of two. *)
Lemma runBatched_preserves_row_order_witness :
  (0 < 2 /\
   batches demo_dataset 2 = inr 2 /\
   answers stub_predict 0%nat (planned_calls demo_dataset 2 2)
   = inr <$> [stub_result <$> take 2 demo_rows; stub_result <$> take 2 (drop 2 demo_rows)] /\
   Forall2 (fun B R => length R = length (rows B)) (planned_calls demo_dataset 2 2)
     [stub_result <$> take 2 demo_rows; stub_result <$> take 2 (drop 2 demo_rows)]) /\
  exists st,
    run_batched stub_predict demo_dataset 2 0%nat = (st, None) /\
    length (predictions st) = length (concat (rows <$> submitted st)).
Proof.
  assert (H1 : 0 < 2) by lia.
  assert (H2 : batches demo_dataset 2 = inr 2) by (by vm_compute).
  assert (H3 : answers stub_predict 0%nat (planned_calls demo_dataset 2 2)
    = inr <$> [stub_result <$> take 2 demo_rows; stub_result <$> take 2 (drop 2 demo_rows)])
    by (by vm_compute).
  assert (H4 : Forall2 (fun B R => length R = length (rows B)) (planned_calls demo_dataset 2 2)
     [stub_result <$> take 2 demo_rows; stub_result <$> take 2 (drop 2 demo_rows)])
    by (vm_compute; repeat constructor).
  split; [done|].
  destruct (runBatched_preserves_row_order stub_predict demo_dataset 2 0%nat 2 _ H1 H2 H3 H4)
    as (st & Hrun & _ & Hlen & _).
  by exists st.
Defined.

(** C10.  When the predictor answers every call, the accumulated sequence is
    the [predicted_label] of every result in the order the results came
    back, batch after batch; its [j]-th element is the label of the [j]-th
    result, and no score is kept. *)
Theorem runBatched_keeps_only_predicted_labels {Label Endpoint}
    (predict : Endpoint -> SparseMatrix -> Endpoint * (string + list (PredictionResult Label)))
    (d : SparseMatrix) (batchSize : Z) (ep : Endpoint) (k : Z)
    (Rs : list (list (PredictionResult Label))) :
  batches d batchSize = inr k ->
  answers predict ep (planned_calls d batchSize k) = inr <$> Rs ->
  exists st,
    run_batched predict d batchSize ep = (st, None) /\
    submitted st = planned_calls d batchSize k /\
    predictions st = predicted_label <$> concat Rs /\
    forall j : nat, predictions st !! j = predicted_label <$> concat Rs !! j.
Proof.
  intros Hk Hans.
  destruct (run_batched_answered predict d batchSize ep k Rs Hk Hans) as [ep' Hrun].
  eexists. split; [exact Hrun|]. cbn [submitted predictions].
  split; [done|]. split; [done|]. intros j. apply list_lookup_fmap.
Qed.

(** The labels of four rows submitted in two batches. *)
Lemma runBatched_keeps_only_predicted_labels_witness :
  (batches demo_dataset 2 = inr 2 /\
   answers stub_predict 0%nat (planned_calls demo_dataset 2 2)
   = inr <$> [stub_result <$> take 2 demo_rows; stub_result <$> take 2 (drop 2 demo_rows)]) /\
  exists st,
    run_batched stub_predict demo_dataset 2 0%nat = (st, None) /\
    predictions st = [8; 5; 11; 7].
Proof.
  assert (H2 : batches demo_dataset 2 = inr 2) by (by vm_compute).
  assert (H3 : answers stub_predict 0%nat (planned_calls demo_dataset 2 2)
    = inr <$> [stub_result <$> take 2 demo_rows; stub_result <$> take 2 (drop 2 demo_rows)])
    by (by vm_compute).
  split; [done|].
  destruct (runBatched_keeps_only_predicted_labels stub_predict demo_dataset 2 0%nat 2 _ H2 H3)
    as (st & Hrun & _ & Hpred & _).
  exists st. split; [done|]. rewrite Hpred. by vm_compute.
Defined.

Lemma length_answers {Label Endpoint}
    (predict : Endpoint -> SparseMatrix -> Endpoint * (string + list (PredictionResult Label)))
    ep calls :
  length (answers predict ep calls) = length calls.
Proof.
  revert ep. induction calls as [|B calls IH]; intros ep; [done|]. simpl.
  destruct (predict ep B) as [ep' a]. simpl. by rewrite IH.
Qed.

(** C6, as stated, fails on five batches of one row with a predictor that
    raises on batch 2: the cell stops with the predictor's own exception, and
    not with a [PredictionError] naming the batch. *)
Lemma runBatched_failure_counterexample :
  batches demo_dataset 1 = inr 5 /\
  (run_batched (failing_predict 2) demo_dataset 1 0%nat).2
  = Some (EndpointFailure "ModelError") /\
  ~ exists cause batch_index row_range,
      (run_batched (failing_predict 2) demo_dataset 1 0%nat).2
      = Some (PredictionError cause batch_index row_range).
Proof.
  split; [by vm_compute|]. split; [by vm_compute|].
  intros (cause & batch_index & row_range & H). revert H. by vm_compute.
Qed.

(** C6 (amended).  When the predictor answers the first [length Rs] calls and
    raises [cause] on the next, the cell stops with that very exception, not
    wrapped and without batch index or row range; every batch up to the
    failing one was submitted once and in order, none was retried and none
    after it was submitted; the cell does not end normally, so nothing is
    returned as a partial success. *)
Theorem runBatched_fails_fast {Label Endpoint}
    (predict : Endpoint -> SparseMatrix -> Endpoint * (string + list (PredictionResult Label)))
    (d : SparseMatrix) (batchSize : Z) (ep : Endpoint) (n : Z)
    (Rs : list (list (PredictionResult Label))) (cause : string)
    (rest : list (string + list (PredictionResult Label))) :
  batches d batchSize = inr n ->
  answers predict ep (planned_calls d batchSize n)
  = (inr <$> Rs) ++ inl cause :: rest ->
  exists st,
    run_batched predict d batchSize ep = (st, Some (EndpointFailure cause)) /\
    submitted st = take (S (length Rs)) (planned_calls d batchSize n) /\
    length (submitted st) = S (length Rs).
Proof.
  intros Hk Hans.
  destruct (run_batched_failed predict d batchSize ep n Rs cause rest Hk Hans)
    as [ep' Hrun].
  eexists. split; [exact Hrun|]. cbn [submitted]. split; [done|].
  pose proof (length_answers predict ep (planned_calls d batchSize n)) as Hlen.
  rewrite Hans, length_app, length_fmap in Hlen. simpl in Hlen.
  rewrite length_take. lia.
Qed.

(** Failure on batch 2 of 5: three calls, then the exception. *)
Lemma runBatched_fails_fast_witness :
  (batches demo_dataset 1 = inr 5 /\
   answers (failing_predict 2) 0%nat (planned_calls demo_dataset 1 5)
   = (inr <$> [stub_result <$> take 1 demo_rows; stub_result <$> take 1 (drop 1 demo_rows)])
     ++ inl "ModelError"%string
     :: (inr <$> [stub_result <$> take 1 (drop 3 demo_rows);
                  stub_result <$> take 1 (drop 4 demo_rows)])) /\
  exists st,
    run_batched (failing_predict 2) demo_dataset 1 0%nat
    = (st, Some (EndpointFailure "ModelError")) /\
    length (submitted st) = 3%nat.
Proof.
  assert (H1 : batches demo_dataset 1 = inr 5) by (by vm_compute).
  assert (H2 : answers (failing_predict 2) 0%nat (planned_calls demo_dataset 1 5)
   = (inr <$> [stub_result <$> take 1 demo_rows; stub_result <$> take 1 (drop 1 demo_rows)])
     ++ inl "ModelError"%string
     :: (inr <$> [stub_result <$> take 1 (drop 3 demo_rows);
                  stub_result <$> take 1 (drop 4 demo_rows)])) by (by vm_compute).
  split; [done|].
  destruct (runBatched_fails_fast (failing_predict 2) demo_dataset 1 0%nat 5 _ _ _ H1 H2)
    as (st & Hrun & _ & Hlen).
  by exists st.
Defined.

(** C9.  The batch count is [int(n / b)], the binary64 quotient truncated.
    Whenever [n / b] is exactly representable as a double it equals
    [floor(n / b)]; for [n = 2 ^ 53 + 1] and [b = 1] it is [2 ^ 53] and not
    [n // b]; and the number of batches the loop submits is that count. *)
Theorem batch_count_is_truncated_float_quotient :
  (forall (d : SparseMatrix) (b : Z), batches d b = int_truediv (shape0 d) b)
  /\ (forall n b : Z, 0 <= n -> 0 < b -> exactly_representable n b ->
        int_truediv n b = inr (n / b))
  /\ (int_truediv (2 ^ 53 + 1) 1 = inr (2 ^ 53) /\ (2 ^ 53 + 1) / 1 = 2 ^ 53 + 1)
  /\ (forall {Label Endpoint : Type}
        (predict : Endpoint -> SparseMatrix ->
                   Endpoint * (string + list (PredictionResult Label)))
        (d : SparseMatrix) (b : Z) (ep : Endpoint) (k : Z)
        (Rs : list (list (PredictionResult Label))),
        batches d b = inr k ->
        answers predict ep (planned_calls d b k) = inr <$> Rs ->
        length (submitted (run_batched predict d b ep).1) = Z.to_nat k).
Proof.
  split; [done|]. split; [exact int_truediv_representable|].
  split; [by vm_compute|].
  intros Label Endpoint predict d b ep k Rs Hk Hans.
  destruct (run_batched_answered predict d b ep k Rs Hk Hans) as [ep' ->].
  cbn [fst submitted]. unfold planned_calls. by rewrite length_fmap, length_seqZ.
Qed.

(** Six rows in batches of two: the quotient [3] is a double. *)
Lemma batch_count_is_truncated_float_quotient_witness :
  (0 <= 6 /\ 0 < 2 /\ exactly_representable 6 2) /\ int_truediv 6 2 = inr (6 / 2).
Proof.
  assert (H : exactly_representable 6 2).
  { exists 3, 0. by vm_compute. }
  split; [split; [lia|split; [lia|exact H]]|].
  apply (proj1 (proj2 batch_count_is_truncated_float_quotient) 6 2); [lia|lia|exact H].
Defined.

Lemma np_true_divide_unit c n :
  0 <= c <= n -> 0 < n ->
  exists f, np_true_divide c n = NpFinite f /\ (0 <= F2Q f <= 1)%Q.
Proof.
  intros Hc Hn. unfold np_true_divide.
  destruct (Z.eqb_spec n 0) as [|_]; [lia|].
  eexists. split; [done|].
  apply round_quotient_unit.
  - split; [|by apply int_to_double_mono].
    rewrite <- (int_to_double_small 0) at 1 by done. apply int_to_double_mono. lia.
  - by apply int_to_double_pos.
Qed.

(** * The accuracy expression *)

(** C3, as stated, fails on the pair of empty sequences: the quotient is
    [0 / 0], which NumPy evaluates to [nan], not to a number in [[0, 1]]. *)
Lemma computeAccuracy_empty_counterexample :
  computeAccuracy (Label := Z) true [] [] = inr NpNaN /\
  computeAccuracy (Label := Z) false [] [] = inr NpNaN.
Proof. by vm_compute. Qed.

(** C3 (amended).  For every pair of equal-length, non-empty label sequences
    [computeAccuracy] is the number of positions where the two agree exactly,
    divided in binary64 by the common length, and lies in [[0, 1]]; on
    [[4,5,3]] against itself it is [1.0], and against [[4,5,2]] it is the
    double that Python writes [2/3]. *)
Theorem computeAccuracy_is_fraction_of_matches :
  (forall (Label : Type) (eq_dec : EqDecision Label) (shape_mismatch_raises : bool)
      (predicted actual : list Label),
      length predicted = length actual -> (0 < length actual)%nat ->
      exists f : float64,
        computeAccuracy shape_mismatch_raises predicted actual = inr (NpFinite f) /\
        np_true_divide (Z.of_nat (matching_positions predicted actual))
                       (Z.of_nat (length actual)) = NpFinite f /\
        (0 <= F2Q f <= 1)%Q)
  /\ (forall shape_mismatch_raises : bool,
        exists f, computeAccuracy shape_mismatch_raises [4; 5; 3] [4; 5; 3] = inr (NpFinite f)
                  /\ (F2Q f == 1)%Q)
  /\ (forall shape_mismatch_raises : bool,
        exists f, computeAccuracy shape_mismatch_raises [4; 5; 3] [4; 5; 2] = inr (NpFinite f)
                  /\ py_truediv 2 3 = inr (PyFloat false f)).
Proof.
  split; [|split].
  - intros Label eq_dec flag predicted actual Hlen Hne.
    unfold computeAccuracy, accuracy, np_equal.
    rewrite decide_True by done.
    rewrite np_sum_zip by done.
    pose proof (np_sum_bounds (zip_with (fun a b => bool_decide (a = b)) actual predicted))
      as Hb.
    rewrite np_sum_zip, length_zip_mask in Hb by done.
    destruct (np_true_divide_unit (Z.of_nat (matching_positions predicted actual))
                (Z.of_nat (length actual))) as (f & Hf & Hunit); [lia..|].
    exists f. by rewrite Hf.
  - intros flag. eexists. split; [by vm_compute|]. by vm_compute.
  - intros flag. eexists. split; by vm_compute.
Qed.

(** Two matches out of four. *)
Lemma computeAccuracy_is_fraction_of_matches_witness :
  (length [1; 0; 1; 1] = length [1; 1; 1; 0] /\ (0 < length [1; 1; 1; 0])%nat) /\
  exists f : float64,
    computeAccuracy true [1; 0; 1; 1] [1; 1; 1; 0] = inr (NpFinite f) /\
    np_true_divide (Z.of_nat (matching_positions [1; 0; 1; 1] [1; 1; 1; 0]))
                   (Z.of_nat (length [1; 1; 1; 0])) = NpFinite f /\
    (0 <= F2Q f <= 1)%Q.
Proof.
  split; [split; [reflexivity|simpl; lia]|].
  apply (proj1 computeAccuracy_is_fraction_of_matches Z _ true [1; 0; 1; 1] [1; 1; 1; 0]);
    [reflexivity|simpl; lia].
Defined.

(** C7, as stated, fails on [[4]] against [[4,5,3]]: the single prediction is
    broadcast and the result is the double nearest [1/3], not an error. *)
Lemma computeAccuracy_mismatch_counterexample :
  length [4] <> length [4; 5; 3] /\
  computeAccuracy true [4] [4; 5; 3] = inr (NpFinite (round_quotient 1 3)) /\
  computeAccuracy false [4] [4; 5; 3] = inr (NpFinite (round_quotient 1 3)).
Proof. split; [done|]. by vm_compute. Qed.

(** C7 (amended).  On sequences of unequal length [computeAccuracy] raises no
    [ValidationError]: a sequence of length one is broadcast against the
    other and a number is returned; otherwise the comparison is not
    elementwise, and the result is [ValueError] where NumPy raises on shapes
    it cannot broadcast, and [0 / len(actual)] where it answers [False]. *)
Theorem computeAccuracy_never_validates_lengths {Label : Type} `{EqDecision Label}
    (shape_mismatch_raises : bool) (predicted actual : list Label) :
  length predicted <> length actual ->
  computeAccuracy shape_mismatch_raises predicted actual <> inl ValidationError
  /\ (forall a, actual = [a] ->
        computeAccuracy shape_mismatch_raises predicted actual
        = inr (np_true_divide
                 (Z.of_nat (length (filter (fun p => a = p) predicted))) 1))
  /\ (forall p, predicted = [p] -> length actual <> 1%nat ->
        computeAccuracy shape_mismatch_raises predicted actual
        = inr (np_true_divide
                 (Z.of_nat (length (filter (fun a => a = p) actual)))
                 (Z.of_nat (length actual))))
  /\ (length predicted <> 1%nat -> length actual <> 1%nat ->
        computeAccuracy shape_mismatch_raises predicted actual
        = if shape_mismatch_raises then inl ValueError
          else inr (np_true_divide 0 (Z.of_nat (length actual)))).
Proof.
  intros Hlen.
  assert (Hsum : forall (P : Label -> Prop) `{!forall x, Decision (P x)} (l : list Label),
            np_sum (BoolArray ((fun x => bool_decide (P x)) <$> l))
            = Z.of_nat (length (filter P l))).
  { intros P ? l. induction l as [|x l IH]; [done|].
    rewrite fmap_cons, filter_cons. cbn [np_sum foldr] in *. rewrite IH.
    destruct (decide (P x)).
    - rewrite bool_decide_eq_true_2 by done. simpl. lia.
    - rewrite bool_decide_eq_false_2 by done. simpl. lia. }
  unfold computeAccuracy, accuracy, np_equal.
  rewrite decide_False by congruence.
  split; [|split; [|split]].
  - destruct actual as [|a [|a' actual]], predicted as [|p [|p' predicted]];
      try destruct shape_mismatch_raises; done.
  - intros a ->. by rewrite Hsum.
  - intros p -> Hone.
    destruct actual as [|a [|a' actual]]; [done|done|]. by rewrite Hsum.
  - intros Hp Ha.
    destruct actual as [|a [|a' actual]], predicted as [|p [|p' predicted]];
      try done; by destruct shape_mismatch_raises.
Qed.

(** One prediction against three labels. *)
Lemma computeAccuracy_never_validates_lengths_witness :
  length [4] <> length [4; 5; 3] /\
  computeAccuracy true [4] [4; 5; 3] <> inl ValidationError.
Proof.
  assert (H : length [4] <> length [4; 5; 3]) by (simpl; lia).
  split; [exact H|].
  apply (computeAccuracy_never_validates_lengths true [4] [4; 5; 3] H).
Defined.

(** * The upload helper *)

Lemma bytesio_fresh_write_seek_read (data : list Byte.byte) :
  bytesio_read (bytesio_seek (bytesio_write {| content := []; position := 0 |} data) 0)
  = data.
Proof.
  unfold bytesio_read, bytesio_seek, bytesio_write. cbn [content position length].
  rewrite take_0, drop_nil, app_nil_r, drop_0. done.
Qed.

(** C5, as stated, fails on any dataset the serializer accepts: the helper
    itself uploads the stream to S3. *)
Lemma writeDatasetToProtobuf_uploads_counterexample :
  (writeDatasetToProtobuf stub_serializer s3_accepts demo_dataset [4; 3; 5; 4; 2]
     "bucket" "protobuf" "train").1 <> [] /\
  exists body,
    (writeDatasetToProtobuf stub_serializer s3_accepts demo_dataset [4; 3; 5; 4; 2]
       "bucket" "protobuf" "train").1 = [S3Upload "bucket" "protobuf/train" body].
Proof. split; [by vm_compute|]. eexists. by vm_compute. Qed.

(** C5 (amended).  When the serializer produces [stream] from [X] and [y],
    [writeDatasetToProtobuf] has exactly one effect outside the process: the
    upload of the whole [stream] to the object [prefix/key] of [bucket].  It
    writes nothing to disk, and when S3 accepts the upload it returns the
    [s3://] address of that object. *)
Theorem writeDatasetToProtobuf_effects {Label : Type}
    (write_spmatrix_to_sparse_tensor : SparseMatrix -> list Label -> exn + list Byte.byte)
    (s3_answer : string -> string -> list Byte.byte -> option exn)
    (X : SparseMatrix) (y : list Label) (bucket prefix key : string)
    (stream : list Byte.byte) :
  write_spmatrix_to_sparse_tensor X y = inr stream ->
  (writeDatasetToProtobuf write_spmatrix_to_sparse_tensor s3_answer X y bucket prefix key).1
  = [S3Upload bucket (prefix +:+ "/" +:+ key) stream]
  /\ (s3_answer bucket (prefix +:+ "/" +:+ key) stream = None ->
      (writeDatasetToProtobuf write_spmatrix_to_sparse_tensor s3_answer X y bucket prefix key).2
      = inr ("s3://" +:+ bucket +:+ "/" +:+ prefix +:+ "/" +:+ key)).
Proof.
  intros Hser. unfold writeDatasetToProtobuf. rewrite Hser.
  cbn zeta. rewrite bytesio_fresh_write_seek_read.
  destruct (s3_answer bucket (prefix +:+ "/" +:+ key) stream) as [e|] eqn:Hs3.
  - by split.
  - by split.
Qed.

(** Five rows uploaded to [s3://bucket/protobuf/train]. *)
Lemma writeDatasetToProtobuf_effects_witness :
  stub_serializer demo_dataset [4; 3; 5; 4; 2]
  = inr (flat_map (fun _ => [Byte.x0a; Byte.x23; Byte.xd7; Byte.xce]) [4; 3; 5; 4; 2]) /\
  (writeDatasetToProtobuf stub_serializer s3_accepts demo_dataset [4; 3; 5; 4; 2]
     "bucket" "protobuf" "train").1
  = [S3Upload "bucket" "protobuf/train"
       (flat_map (fun _ => [Byte.x0a; Byte.x23; Byte.xd7; Byte.xce]) [4; 3; 5; 4; 2])].
Proof.
  assert (H : stub_serializer demo_dataset [4; 3; 5; 4; 2]
    = inr (flat_map (fun _ => [Byte.x0a; Byte.x23; Byte.xd7; Byte.xce]) [4; 3; 5; 4; 2]))
    by reflexivity.
  split; [exact H|].
  apply (writeDatasetToProtobuf_effects stub_serializer s3_accepts demo_dataset
           [4; 3; 5; 4; 2] "bucket" "protobuf" "train" _ H).
Defined.

(** * The record codec of the specification *)
Section CodecFacts.
Context {V : Type} (to_wire : V -> Z) (of_wire : Z -> V).

Lemma length_encode_row (r : Codec.SparseRow (V := V)) :
  length (Codec.indices r) = length (Codec.values r) ->
  length (Codec.encode_row to_wire r) = (4 + 2 * length (Codec.indices r))%nat.
Proof.
  intros Hk. unfold Codec.encode_row, Codec.record_chunks. simpl.
  rewrite !length_app, length_fmap, <- Hk. simpl. lia.
Qed.

Lemma encode_row_body (r : Codec.SparseRow (V := V)) :
  Codec.encode_row to_wire r
  = (3 + 2 * Z.of_nat (length (Codec.indices r)))
    :: Codec.featureCount r :: Z.of_nat (length (Codec.indices r))
    :: Codec.indices r ++ (to_wire <$> Codec.values r) ++ [to_wire (Codec.label r)].
Proof. unfold Codec.encode_row, Codec.record_chunks. simpl. by rewrite ?app_nil_r. Qed.

Lemma decode_record_encode (r : Codec.SparseRow (V := V)) :
  length (Codec.indices r) = length (Codec.values r) ->
  Forall (fun i => 0 <= i < Codec.featureCount r) (Codec.indices r) ->
  Codec.decode_record of_wire
    (Codec.featureCount r :: Z.of_nat (length (Codec.indices r))
     :: Codec.indices r ++ (to_wire <$> Codec.values r) ++ [to_wire (Codec.label r)])
  = inr (Codec.at_wire_precision to_wire of_wire r).
Proof.
  intros Hk Hin. unfold Codec.decode_record.
  set (k := length (Codec.indices r)) in *.
  rewrite bool_decide_eq_true_2.
  2:{ rewrite !length_app, length_fmap, <- Hk. fold k. simpl. lia. }
  rewrite Nat2Z.id.
  rewrite (take_app_length' (Codec.indices r)) by done.
  assert (Hb : forallb (fun i => (0 <=? i) && (i <? Codec.featureCount r)) (Codec.indices r)
               = true).
  { apply forallb_forall. intros i Hi. apply list_elem_of_In in Hi.
    rewrite Forall_forall in Hin. specialize (Hin i Hi).
    apply andb_true_iff. split; [apply Z.leb_le|apply Z.ltb_lt]; lia. }
  rewrite Hb.
  replace (2 * k)%nat with (k + k)%nat by lia.
  rewrite <- drop_drop, (drop_app_length' (Codec.indices r)) by done.
  rewrite (drop_app_length' (to_wire <$> Codec.values r)) by (rewrite length_fmap; lia).
  rewrite (take_app_length' (to_wire <$> Codec.values r)) by (rewrite length_fmap; lia).
  unfold Codec.at_wire_precision. by rewrite <- list_fmap_compose.
Qed.

Lemma decode_records_encode (d : list (Codec.SparseRow (V := V))) fc fuel :
  Forall (Codec.valid_row fc) d ->
  (length (flat_map (Codec.encode_row to_wire) d) <= fuel)%nat ->
  Codec.decode_records of_wire fuel (flat_map (Codec.encode_row to_wire) d)
  = inr (Codec.at_wire_precision to_wire of_wire <$> d).
Proof.
  intros Hd. revert fuel.
  induction Hd as [|r d (Hfc & Hk & _ & Hin) _ IH]; intros fuel Hfuel.
  { by destruct fuel. }
  cbn [flat_map] in *. rewrite length_app in Hfuel.
  pose proof (length_encode_row r Hk) as Hlen.
  destruct fuel as [|fuel]; [lia|].
  rewrite encode_row_body in *.
  set (body := Codec.featureCount r :: _) in *.
  rewrite <- app_comm_cons. cbn [Codec.decode_records].
  assert (Hbody : Z.to_nat (3 + 2 * Z.of_nat (length (Codec.indices r))) = length body).
  { cbn [length] in Hlen. lia. }
  rewrite bool_decide_eq_true_2 by (rewrite length_app; lia).
  rewrite Hbody, take_app_length, drop_app_length.
  unfold body. rewrite decode_record_encode by (by rewrite ?Hfc).
  rewrite IH by (cbn [length] in Hfuel; lia). done.
Qed.

Lemma encode_valid (d : list (Codec.SparseRow (V := V))) :
  Codec.valid_dataset d ->
  Codec.encode to_wire d = inr (flat_map (Codec.encode_row to_wire) d).
Proof.
  intros [Hne (fc & Hd)]. destruct d as [|r0 d]; [done|].
  unfold Codec.encode.
  assert (Hfc : Codec.featureCount r0 = fc).
  { by apply Forall_cons_1 in Hd as [(? & _) _]. }
  rewrite Hfc.
  assert (Hok : forallb (Codec.row_ok fc) (r0 :: d) = true).
  { apply forallb_forall. intros r Hr. apply list_elem_of_In in Hr.
    rewrite Forall_forall in Hd. destruct (Hd r Hr) as (H1 & H2 & H3 & _).
    unfold Codec.row_ok. by rewrite !bool_decide_eq_true_2. }
  by rewrite Hok.
Qed.

Lemma at_wire_precision_on_wire (r : Codec.SparseRow (V := V)) :
  Codec.on_wire to_wire of_wire r -> Codec.at_wire_precision to_wire of_wire r = r.
Proof.
  intros [Hv Hl]. destruct r as [fc idx vals lab]. unfold Codec.at_wire_precision.
  simpl in *. rewrite Hl. f_equal.
  induction Hv as [|v vals Hv _ IH]; [done|]. simpl. rewrite Hv. f_equal. exact IH.
Qed.

Lemma at_wire_precision_dataset (d : list (Codec.SparseRow (V := V))) :
  Forall (Codec.on_wire to_wire of_wire) d ->
  Codec.at_wire_precision to_wire of_wire <$> d = d.
Proof.
  induction 1 as [|r d Hr _ IH]; [done|].
  by rewrite fmap_cons, (at_wire_precision_on_wire r Hr), IH.
Qed.
End CodecFacts.

(** C2.  For every valid dataset (non-empty, one feature count, indices in
    bounds and without duplicates, as many values as indices) [encode]
    succeeds and [decode] gives back the dataset row by row: the same
    feature count and indices, and the values and the label at the precision
    of the wire format; a dataset whose values the wire format holds
    exactly comes back unchanged. *)
Theorem decode_encode_round_trip {V : Type} (to_wire : V -> Z) (of_wire : Z -> V)
    (d : Codec.SparseDataset (V := V)) :
  Codec.valid_dataset d ->
  exists stream,
    Codec.encode to_wire d = inr stream /\
    Codec.decode of_wire stream = inr (Codec.at_wire_precision to_wire of_wire <$> d) /\
    (Forall (Codec.on_wire to_wire of_wire) d -> Codec.decode of_wire stream = inr d).
Proof.
  intros Hvalid. exists (flat_map (Codec.encode_row to_wire) d).
  split; [by apply encode_valid|].
  destruct Hvalid as [_ (fc & Hd)].
  assert (Hdec : Codec.decode of_wire (flat_map (Codec.encode_row to_wire) d)
                 = inr (Codec.at_wire_precision to_wire of_wire <$> d)).
  { unfold Codec.decode. by apply (decode_records_encode to_wire of_wire d fc). }
  split; [done|].
  intros Hexact. by rewrite Hdec, at_wire_precision_dataset.
Qed.

Ltac list_facts :=
  repeat first
    [ apply Forall_nil_2 | apply Forall_cons_2
    | match goal with |- NoDup ?l => exact (bool_decide_unpack (NoDup l) I) end
    | split | reflexivity | lia ].

(** The example of section 8: five rows over ten features come back
    identical. *)
Lemma decode_encode_round_trip_witness :
  Codec.valid_dataset example_dataset /\
  Codec.decode id (flat_map (Codec.encode_row id) example_dataset) = inr example_dataset.
Proof.
  assert (Hvalid : Codec.valid_dataset example_dataset).
  { split; [done|]. exists 10. unfold example_dataset, Codec.valid_row. list_facts. }
  split; [exact Hvalid|].
  destruct (decode_encode_round_trip id id example_dataset Hvalid)
    as (stream & Henc & _ & Hdec).
  rewrite (encode_valid id example_dataset Hvalid) in Henc.
  injection Henc as <-. apply Hdec.
  unfold example_dataset, Codec.on_wire. list_facts.
Defined.




Section CodecSizes.
Context {V : Type} (to_wire : V -> Z).






End CodecSizes.



(** * Further properties of the cells *)

(** ** Further properties of the batched loop *)

Lemma round_quotient_mant_nonneg n b :
  0 <= n -> 0 < b -> 0 <= mant (round_quotient n b).
Proof.
  intros Hn Hb. unfold round_quotient. destruct (Z.eqb_spec n 0); [done|]. simpl.
  set (e := quotient_exponent n b).
  pose proof (scale_den_pos b e Hb) as Hd.
  pose proof (div_half_even_bounds (scale_num n e) (scale_den b e) Hd) as Hm.
  assert (0 <= scale_num n e).
  { unfold scale_num. apply Z.mul_nonneg_nonneg; [done|]. apply Z.pow_nonneg. lia. }
  assert (0 <= scale_num n e / scale_den b e) by (apply Z.div_pos; lia).
  lia.
Qed.

Lemma trunc_nonneg f : 0 <= mant f -> 0 <= trunc f.
Proof.
  intros Hm. unfold trunc. apply Z.div_pos.
  - unfold scale_num. apply Z.mul_nonneg_nonneg; [done|]. apply Z.pow_nonneg. lia.
  - apply scale_den_pos. lia.
Qed.

Lemma int_truediv_nonpositive_divisor n b k :
  0 <= n -> b < 0 -> int_truediv n b = inr k -> k <= 0.
Proof.
  intros Hn Hb. unfold int_truediv, py_truediv.
  destruct (Z.eqb_spec b 0) as [|_]; [lia|].
  destruct (overflows _); [done|].
  intros [= <-]. unfold py_int. simpl.
  destruct (Z.ltb_spec n 0), (Z.ltb_spec b 0); try lia. cbn [xorb negative magnitude].
  assert (0 <= Z.abs n) as Ha by lia. assert (0 < Z.abs b) as Hb' by lia.
  pose proof (trunc_nonneg _ (round_quotient_mant_nonneg _ _ Ha Hb')). lia.
Qed.

Section LoopFacts.
Context {Label Endpoint : Type}.
Variable predict :
  Endpoint -> SparseMatrix -> Endpoint * (string + list (PredictionResult Label)).

Lemma concat_take_prefix {A} (ls : list (list A)) j : concat (take j ls) `prefix_of` concat ls.
Proof.
  rewrite <- (take_drop j ls) at 2. rewrite concat_app. by apply prefix_app_r.
Qed.

(** X1.  For every positive batch size, every data set, also one of
    [2 ^ 53] rows or more, and every predictor, the rows handed to the
    endpoint, call after call, are an initial segment of the rows of the
    matrix: they are submitted in order and none of them twice. *)
Theorem run_batched_submits_rows_in_order (X_pred : SparseMatrix) (batch_size : Z)
    (ep : Endpoint) :
  0 < batch_size ->
  concat (rows <$> submitted (run_batched predict X_pred batch_size ep).1)
    `prefix_of` rows X_pred.
Proof.
  intros Hb. unfold run_batched.
  destruct (batches X_pred batch_size) as [e|k]; [apply prefix_nil|].
  destruct (batch_loop_submitted predict X_pred batch_size (seqZ 0 k)
              {| endpoint := ep; submitted := []; predictions := [] |})
    as (j & _ & -> & _).
  cbn [submitted app]. rewrite fmap_take.
  change (X_sample X_pred batch_size <$> seqZ 0 k) with (planned_calls X_pred batch_size k).
  rewrite fmap_take. etrans; [apply concat_take_prefix|].
  rewrite planned_calls_rows by lia. apply prefix_take.
Qed.

(** X2.  A batch size that is not positive never reaches the predictor.
    Zero ends the cell in [ZeroDivisionError]; a negative one is not
    refused: the cell runs to its end and leaves no prediction. *)
Theorem run_batched_nonpositive_batch_size (X_pred : SparseMatrix) (batch_size : Z)
    (ep : Endpoint) :
  batch_size <= 0 ->
  submitted (run_batched predict X_pred batch_size ep).1 = [] /\
  predictions (run_batched predict X_pred batch_size ep).1 = [] /\
  (batch_size = 0 ->
   (run_batched predict X_pred batch_size ep).2 = Some ZeroDivisionError) /\
  (batch_size < 0 -> shape0 X_pred < 2 ^ 53 ->
   (run_batched predict X_pred batch_size ep).2 = None).
Proof.
  intros Hb. unfold run_batched.
  destruct (Z.eq_dec batch_size 0) as [->|Hne].
  { unfold batches, int_truediv, py_truediv. cbn [Z.eqb fst snd submitted predictions].
    split; [done|]. split; [done|]. split; [done|lia]. }
  assert (Hneg : batch_size < 0) by lia.
  destruct (batches X_pred batch_size) as [e|k] eqn:Hk.
  - cbn [fst snd submitted predictions].
    split; [done|]. split; [done|]. split; [lia|]. intros _ Hn. exfalso.
    unfold batches, int_truediv, py_truediv in Hk.
    destruct (Z.eqb_spec batch_size 0); [lia|].
    destruct (round_quotient_small (Z.abs (shape0 X_pred)) (Z.abs batch_size))
      as [_ Hov]; [unfold shape0 in *; lia|lia|].
    by rewrite Hov in Hk.
  - apply int_truediv_nonpositive_divisor in Hk; [|unfold shape0; lia|done].
    rewrite seqZ_nil by done. cbn [batch_loop fst snd submitted predictions].
    split; [done|]. split; [done|]. split; [lia|]. done.
Qed.

Lemma row_slice_all (X : SparseMatrix) : row_slice X 0 (shape0 X) = X.
Proof.
  destruct X as [c rs]. unfold row_slice, shape0, py_slice. cbn [rows shape1].
  f_equal. destruct (Z.ltb_spec 0 0); [lia|].
  destruct (Z.ltb_spec (Z.of_nat (length rs)) 0); [lia|].
  rewrite Z.min_id, Z.min_l by lia. rewrite Z.sub_0_r, Nat2Z.id. simpl.
  by rewrite firstn_all.
Qed.

(** X3.  With [batch_size] equal to the number of rows, which is how the
    notebook sets it, the whole matrix goes out in one call. *)
Theorem run_batched_single_batch (X_pred : SparseMatrix) (ep : Endpoint) :
  0 < shape0 X_pred < 2 ^ 53 ->
  submitted (run_batched predict X_pred (shape0 X_pred) ep).1 = [X_pred] /\
  (forall result,
     (predict ep X_pred).2 = inr result ->
     (run_batched predict X_pred (shape0 X_pred) ep).2 = None /\
     predictions (run_batched predict X_pred (shape0 X_pred) ep).1
     = predicted_label <$> result) /\
  (forall cause,
     (predict ep X_pred).2 = inl cause ->
     (run_batched predict X_pred (shape0 X_pred) ep).2 = Some (EndpointFailure cause)).
Proof.
  intros Hn. unfold run_batched, batches.
  rewrite int_truediv_small, Z.div_same by lia.
  rewrite (seqZ_cons 0 1), seqZ_nil by lia. cbn [batch_loop].
  unfold X_sample. rewrite Z.mul_0_l, Z.add_0_l, Z.mul_1_l, row_slice_all.
  cbn [endpoint submitted predictions app].
  destruct (predict ep X_pred) as [ep' [cause|result]]; cbn.
  - split; [done|]. split; [done|]. by intros ? [= <-].
  - split; [done|]. split; [|done]. by intros ? [= <-].
Qed.

(** X4.  After a failure the list [predictions] holds the labels of the batches
    answered before it, and nothing of the failing batch or of later ones. *)
Theorem run_batched_keeps_earlier_labels (X_pred : SparseMatrix) (batch_size : Z)
    (ep : Endpoint) (n : Z) (Rs : list (list (PredictionResult Label)))
    (cause : string) (rest : list (string + list (PredictionResult Label))) :
  batches X_pred batch_size = inr n ->
  answers predict ep (planned_calls X_pred batch_size n)
  = (inr <$> Rs) ++ inl cause :: rest ->
  (run_batched predict X_pred batch_size ep).2 = Some (EndpointFailure cause) /\
  predictions (run_batched predict X_pred batch_size ep).1
  = predicted_label <$> concat Rs.
Proof.
  intros Hk Hans.
  destruct (run_batched_failed predict X_pred batch_size ep n Rs cause rest Hk Hans)
    as [ep' ->].
  done.
Qed.
End LoopFacts.

(** Five rows in batches of two, the second call failing. *)
Lemma run_batched_submits_rows_in_order_witness :
  0 < 2 /\
  concat (rows <$> submitted (run_batched (failing_predict 1) demo_dataset 2 0%nat).1)
    `prefix_of` rows demo_dataset.
Proof.
  split; [lia|].
  apply (run_batched_submits_rows_in_order (failing_predict 1) demo_dataset 2 0%nat). lia.
Defined.

(** A batch size of [-3]. *)
Lemma run_batched_nonpositive_batch_size_witness :
  -3 <= 0 /\ submitted (run_batched stub_predict demo_dataset (-3) 0%nat).1 = [].
Proof.
  split; [lia|].
  apply (run_batched_nonpositive_batch_size stub_predict demo_dataset (-3) 0%nat). lia.
Defined.

(** Five rows in one batch of five. *)
Lemma run_batched_single_batch_witness :
  0 < shape0 demo_dataset < 2 ^ 53 /\
  submitted (run_batched stub_predict demo_dataset (shape0 demo_dataset) 0%nat).1
  = [demo_dataset].
Proof.
  assert (H : 0 < shape0 demo_dataset < 2 ^ 53) by (by vm_compute).
  split; [exact H|].
  apply (run_batched_single_batch stub_predict demo_dataset 0%nat H).
Defined.

(** Failure on batch 2 of 5: the labels of batches 0 and 1 are kept. *)
Lemma run_batched_keeps_earlier_labels_witness :
  (batches demo_dataset 1 = inr 5 /\
   answers (failing_predict 2) 0%nat (planned_calls demo_dataset 1 5)
   = (inr <$> [stub_result <$> take 1 demo_rows; stub_result <$> take 1 (drop 1 demo_rows)])
     ++ inl "ModelError"%string
     :: (inr <$> [stub_result <$> take 1 (drop 3 demo_rows);
                  stub_result <$> take 1 (drop 4 demo_rows)])) /\
  predictions (run_batched (failing_predict 2) demo_dataset 1 0%nat).1 = [8; 5].
Proof.
  assert (H1 : batches demo_dataset 1 = inr 5) by (by vm_compute).
  assert (H2 : answers (failing_predict 2) 0%nat (planned_calls demo_dataset 1 5)
   = (inr <$> [stub_result <$> take 1 demo_rows; stub_result <$> take 1 (drop 1 demo_rows)])
     ++ inl "ModelError"%string
     :: (inr <$> [stub_result <$> take 1 (drop 3 demo_rows);
                  stub_result <$> take 1 (drop 4 demo_rows)])) by (by vm_compute).
  split; [done|].
  destruct (run_batched_keeps_earlier_labels (failing_predict 2) demo_dataset 1 0%nat 5
              _ _ _ H1 H2) as [_ ->].
  by vm_compute.
Defined.

(** ** Accuracy: symmetry and extreme values *)

Lemma F2Q_trunc f :
  0 <= mant f ->
  (inject_Z (trunc f) <= F2Q f)%Q /\ (F2Q f < inject_Z (trunc f + 1))%Q.
Proof.
  destruct f as [m e]. cbn [mant]. intros Hm. unfold F2Q. cbn [mant expo].
  destruct (Z.leb_spec 0 e) as [He|He].
  - rewrite trunc_nonneg_expo by done. unfold Qle, Qlt; simpl. lia.
  - rewrite trunc_nonpos_expo by lia.
    set (s := 2 ^ (- e)). assert (Hs : 0 < s) by (apply Z.pow_pos_nonneg; lia).
    pose proof (Z_div_mod_eq_full m s) as Hdm.
    pose proof (Z.mod_pos_bound m s Hs) as Hr.
    unfold Qle, Qlt; simpl. rewrite Z2Pos.id by done. nia.
Qed.

Lemma F2Q_zero f : (F2Q f == 0)%Q -> mant f = 0.
Proof.
  destruct f as [m e]. unfold F2Q. cbn [mant expo].
  destruct (Z.leb_spec 0 e) as [He|He]; unfold Qeq; simpl.
  - assert (0 < 2 ^ e) by (apply Z.pow_pos_nonneg; lia). nia.
  - lia.
Qed.

Lemma round_quotient_mant_pos c n :
  0 < c -> 0 < n < 2 ^ 53 -> 0 < mant (round_quotient c n).
Proof.
  intros Hc Hn. unfold round_quotient.
  destruct (Z.eqb_spec c 0) as [|_]; [lia|]. cbn [mant].
  destruct (quotient_exponent_spec c n) as (e & Heq & Hlo & Hhi); [lia..|].
  assert (He : emin <= e).
  { destruct (Z.le_gt_cases emin e) as [|Hlt]; [done|exfalso].
    unfold emin in Hlt. unfold scale_num, scale_den in Hhi.
    rewrite (Z.max_l 0 e), (Z.max_r 0 (- e)), Z.pow_0_r in Hhi by lia.
    assert (2 ^ 1074 <= 2 ^ (- e)) by (apply Z.pow_le_mono_r; lia).
    assert (2 ^ 53 * 2 ^ 53 < 2 ^ 1074) by done.
    nia. }
  rewrite Heq, Z.max_l by done.
  pose proof (scale_den_pos n e ltac:(lia)) as Hd.
  pose proof (div_half_even_bounds (scale_num c e) (scale_den n e) Hd) as Hm.
  assert (2 ^ 52 <= scale_num c e / scale_den n e) by (apply Z.div_le_lower_bound; lia).
  lia.
Qed.

Section AccuracyExtremes.
Context {Label : Type} `{EqDecision Label}.

Lemma zip_mask_comm (x y : list Label) :
  zip_with (fun a b => bool_decide (a = b)) x y
  = zip_with (fun a b => bool_decide (a = b)) y x.
Proof.
  revert y. induction x as [|a x IH]; intros [|b y]; [done..|].
  cbn [zip_with]. f_equal; [|apply IH]. apply bool_decide_ext. naive_solver.
Qed.

Lemma np_sum_zip_full (x y : list Label) :
  length x = length y ->
  np_sum (BoolArray (zip_with (fun a b => bool_decide (a = b)) x y)) = Z.of_nat (length x)
  <-> x = y.
Proof.
  revert y. induction x as [|a x IH]; intros [|b y] Hlen; try done.
  injection Hlen as Hlen. specialize (IH y Hlen).
  pose proof (np_sum_bounds (zip_with (fun a b => bool_decide (a = b)) x y)) as Hb.
  rewrite length_zip_with in Hb.
  cbn [zip_with length np_sum foldr] in *.
  destruct (decide (a = b)) as [->|Hne].
  - rewrite bool_decide_eq_true_2 by done. cbn [Z.b2z].
    split.
    + intros Hs. f_equal. apply IH. lia.
    + intros [= ->]. apply proj2 in IH. specialize (IH eq_refl). lia.
  - rewrite bool_decide_eq_false_2 by done. cbn [Z.b2z].
    split; [lia|congruence].
Qed.

Lemma np_sum_zip_none (x y : list Label) :
  np_sum (BoolArray (zip_with (fun a b => bool_decide (a = b)) x y)) = 0
  <-> forall (i : nat) a b, x !! i = Some a -> y !! i = Some b -> a <> b.
Proof.
  revert y. induction x as [|a x IH]; intros [|b y]; try (split; [intros _ i ? ? ?|]; done).
  specialize (IH y).
  pose proof (np_sum_bounds (zip_with (fun a b => bool_decide (a = b)) x y)) as Hb.
  cbn [zip_with np_sum foldr] in *.
  destruct (decide (a = b)) as [->|Hne].
  - rewrite bool_decide_eq_true_2 by done. cbn [Z.b2z].
    split; [lia|]. intros Hall. by destruct (Hall 0%nat b b).
  - rewrite bool_decide_eq_false_2 by done. cbn [Z.b2z].
    split.
    + intros Hs [|i] a' b' Ha Hb'; simplify_eq/=; [done|].
      apply proj1 in IH. eapply IH; [lia|done..].
    + intros Hall. rewrite Z.add_0_l. apply IH. intros i a' b' Ha Hb'.
      by apply (Hall (S i)).
Qed.

(** X5.  On sequences of equal length the two arguments of the accuracy
    expression can be exchanged: it does not matter which of the two holds
    the predictions. *)
Theorem accuracy_symmetric_on_equal_lengths (shape_mismatch_raises : bool)
    (Y_pred predictions : list Label) :
  length Y_pred = length predictions ->
  accuracy shape_mismatch_raises Y_pred predictions
  = accuracy shape_mismatch_raises predictions Y_pred.
Proof.
  intros Hlen. unfold accuracy, np_equal.
  rewrite !decide_True by done. by rewrite zip_mask_comm, Hlen.
Qed.

(** X6.  Below [2 ^ 53] labels the accuracy is [1.0] exactly when every
    prediction is right and [0.0] exactly when none is: rounding cannot
    hide a single mistake or a single hit. *)
Theorem accuracy_extremes (shape_mismatch_raises : bool)
    (Y_pred predictions : list Label) :
  length predictions = length Y_pred ->
  0 < Z.of_nat (length Y_pred) < 2 ^ 53 ->
  exists f,
    accuracy shape_mismatch_raises Y_pred predictions = inr (NpFinite f) /\
    ((F2Q f == 1)%Q <-> predictions = Y_pred) /\
    ((F2Q f == 0)%Q <->
     forall (i : nat) y p, Y_pred !! i = Some y -> predictions !! i = Some p -> y <> p).
Proof.
  intros Hlen Hn. unfold accuracy, np_equal.
  rewrite decide_True by done.
  pose proof (np_sum_bounds (zip_with (fun a b => bool_decide (a = b)) Y_pred predictions))
    as Hc.
  rewrite length_zip_with, Hlen, Nat.min_id in Hc.
  set (mask := zip_with (fun a b => bool_decide (a = b)) Y_pred predictions) in *.
  pose proof (np_sum_zip_full Y_pred predictions (eq_sym Hlen)) as Hfull.
  pose proof (np_sum_zip_none Y_pred predictions) as Hnone.
  fold mask in Hfull, Hnone.
  set (c := np_sum (BoolArray mask)) in *. set (n := Z.of_nat (length Y_pred)) in *.
  unfold np_true_divide. destruct (Z.eqb_spec n 0) as [|_]; [lia|].
  rewrite !int_to_double_small by lia.
  eexists. split; [done|].
  set (f := round_quotient c n).
  destruct (round_quotient_small c n ltac:(lia) ltac:(lia)) as [Ht _]. fold f in Ht.
  assert (Hm0 : 0 <= mant f) by (apply round_quotient_mant_nonneg; lia).
  destruct (F2Q_trunc f Hm0) as [Hlo Hhi]. rewrite Ht in Hlo, Hhi.
  pose proof (round_quotient_unit c n ltac:(lia) ltac:(lia)) as [_ Hle1]. fold f in Hle1.
  split.
  - rewrite <- (symmetry_iff (=) Y_pred predictions), <- Hfull. split.
    + intros H1. rewrite H1 in Hlo, Hhi.
      unfold Qle, Qlt in Hlo, Hhi. simpl in Hlo, Hhi.
      assert (c / n = 1) as Hq by lia.
      destruct (Z.eq_dec c n) as [|Hne]; [done|].
      rewrite Z.div_small in Hq by lia. lia.
    + intros Hcn. rewrite Hcn, Z.div_same in Hlo by lia.
      apply Qle_antisym; [done|]. exact Hlo.
  - rewrite <- Hnone. split.
    + intros H0. apply F2Q_zero in H0.
      destruct (Z.eq_dec c 0) as [|Hne]; [done|].
      pose proof (round_quotient_mant_pos c n ltac:(lia) ltac:(lia)). fold f in H. lia.
    + intros Hc0. unfold f. by rewrite Hc0.
Qed.
End AccuracyExtremes.

(** Three labels against three predictions. *)
Lemma accuracy_symmetric_on_equal_lengths_witness :
  length [4; 5; 3] = length [4; 5; 2] /\
  accuracy true [4; 5; 3] [4; 5; 2] = accuracy true [4; 5; 2] [4; 5; 3].
Proof.
  split; [reflexivity|].
  apply (accuracy_symmetric_on_equal_lengths true [4; 5; 3] [4; 5; 2]). reflexivity.
Defined.

(** Two matches out of three are not a perfect score. *)
Lemma accuracy_extremes_witness :
  (length [4; 5; 2] = length [4; 5; 3] /\ 0 < Z.of_nat (length [4; 5; 3]) < 2 ^ 53) /\
  exists f,
    accuracy true [4; 5; 3] [4; 5; 2] = inr (NpFinite f) /\
    ((F2Q f == 1)%Q <-> [4; 5; 2] = [4; 5; 3]).
Proof.
  assert (H1 : length [4; 5; 2] = length [4; 5; 3]) by reflexivity.
  assert (H2 : 0 < Z.of_nat (length [4; 5; 3]) < 2 ^ 53) by (by vm_compute).
  split; [done|].
  destruct (accuracy_extremes true [4; 5; 3] [4; 5; 2] H1 H2) as (f & Hf & Hone & _).
  by exists f.
Defined.

(** ** The loop followed by the validation cell *)
Section LoopThenValidation.
Context {Label Endpoint : Type} `{EqDecision Label}.
Variable predict :
  Endpoint -> SparseMatrix -> Endpoint * (string + list (PredictionResult Label)).

Lemma run_batched_one_result_per_row X b ep Rs :
  0 < b -> shape0 X < 2 ^ 53 ->
  answers predict ep (planned_calls X b (shape0 X / b)) = inr <$> Rs ->
  Forall2 (fun B R => length R = length (rows B)) (planned_calls X b (shape0 X / b)) Rs ->
  (run_batched predict X b ep).2 = None /\
  Z.of_nat (length (predictions (run_batched predict X b ep).1)) = shape0 X / b * b.
Proof.
  intros Hb Hn Hans Hrows.
  assert (Hk : batches X b = inr (shape0 X / b)).
  { apply int_truediv_small; [unfold shape0 in *; lia|done]. }
  destruct (run_batched_answered predict X b ep _ Rs Hk Hans) as [ep' ->].
  split; [done|]. cbn [fst predictions]. rewrite length_fmap.
  rewrite <- (firstn_all Rs), (one_result_per_row_lengths _ _ (length Rs) Hrows).
  rewrite <- (Forall2_length _ _ _ Hrows), firstn_all.
  rewrite planned_calls_rows by lia.
  assert (0 <= shape0 X / b) by (apply Z.div_pos; unfold shape0; lia).
  assert (shape0 X / b * b <= shape0 X) by (rewrite Z.mul_comm; apply Z.mul_div_le; lia).
  rewrite length_take. unfold shape0 in *. nia.
Qed.

(** X7.  When the batch size divides the number of rows and the endpoint
    answers with one result per row, the validation cell yields the fraction
    of matching labels, a number in [[0, 1]]. *)
Theorem validation_after_full_batches (shape_mismatch_raises : bool)
    (X_pred : SparseMatrix) (Y_pred : list Label) (batch_size : Z) (ep : Endpoint)
    (Rs : list (list (PredictionResult Label))) :
  0 < batch_size -> 0 < shape0 X_pred < 2 ^ 53 ->
  shape0 X_pred mod batch_size = 0 ->
  length Y_pred = length (rows X_pred) ->
  answers predict ep (planned_calls X_pred batch_size (shape0 X_pred / batch_size))
  = inr <$> Rs ->
  Forall2 (fun B R => length R = length (rows B))
    (planned_calls X_pred batch_size (shape0 X_pred / batch_size)) Rs ->
  (run_batched predict X_pred batch_size ep).2 = None /\
  length (predictions (run_batched predict X_pred batch_size ep).1) = length Y_pred /\
  exists f,
    validation_cell shape_mismatch_raises Y_pred
      (predictions (run_batched predict X_pred batch_size ep).1) = inr (NpFinite f) /\
    np_true_divide
      (Z.of_nat (matching_positions
                   (predictions (run_batched predict X_pred batch_size ep).1) Y_pred))
      (shape0 X_pred) = NpFinite f /\
    (0 <= F2Q f <= 1)%Q.
Proof.
  intros Hb Hn Hmod HY Hans Hrows.
  destruct (run_batched_one_result_per_row X_pred batch_size ep Rs Hb ltac:(lia) Hans Hrows)
    as [Hnone Hlen].
  set (preds := predictions (run_batched predict X_pred batch_size ep).1) in *.
  assert (Hlen' : length preds = length Y_pred).
  { pose proof (Z_div_mod_eq_full (shape0 X_pred) batch_size). unfold shape0 in *. nia. }
  split; [done|]. split; [done|].
  unfold validation_cell, list_index.
  destruct preds as [|p preds'] eqn:Hp.
  { exfalso. simpl in Hlen'. unfold shape0 in Hn. lia. }
  cbn [lookup list_lookup]. rewrite <- Hp in *. clear Hp.
  unfold accuracy, np_equal. rewrite decide_True by done.
  rewrite np_sum_zip by done.
  pose proof (np_sum_bounds (zip_with (fun a b => bool_decide (a = b)) Y_pred preds)) as Hc.
  rewrite np_sum_zip, length_zip_mask in Hc by done.
  replace (shape0 X_pred) with (Z.of_nat (length Y_pred)) by (unfold shape0; lia).
  destruct (np_true_divide_unit (Z.of_nat (matching_positions preds Y_pred))
              (Z.of_nat (length Y_pred))) as (f & Hf & Hunit); [unfold shape0 in Hn; lia..|].
  exists f. by rewrite Hf.
Qed.

(** X8.  When the batch size does not divide the number of rows, the rows of
    the last, partial batch get no prediction and the validation cell cannot
    compare: it raises [IndexError] when no batch was full, and otherwise
    the comparison is not elementwise, which is a [ValueError] or the value
    [0.0] depending on the NumPy release. *)
Theorem validation_after_partial_batch (shape_mismatch_raises : bool)
    (X_pred : SparseMatrix) (Y_pred : list Label) (batch_size : Z) (ep : Endpoint)
    (Rs : list (list (PredictionResult Label))) :
  0 < batch_size -> shape0 X_pred < 2 ^ 53 ->
  shape0 X_pred mod batch_size <> 0 ->
  length Y_pred = length (rows X_pred) ->
  answers predict ep (planned_calls X_pred batch_size (shape0 X_pred / batch_size))
  = inr <$> Rs ->
  Forall2 (fun B R => length R = length (rows B))
    (planned_calls X_pred batch_size (shape0 X_pred / batch_size)) Rs ->
  (run_batched predict X_pred batch_size ep).2 = None /\
  Z.of_nat (length (predictions (run_batched predict X_pred batch_size ep).1))
  = shape0 X_pred - shape0 X_pred mod batch_size /\
  validation_cell shape_mismatch_raises Y_pred
    (predictions (run_batched predict X_pred batch_size ep).1)
  = if shape0 X_pred <? batch_size then inl (inl IndexError)
    else if shape_mismatch_raises then inl (inr ValueError)
    else inr (NpFinite (F64 0 0)).
Proof.
  intros Hb Hn Hmod HY Hans Hrows.
  destruct (run_batched_one_result_per_row X_pred batch_size ep Rs Hb Hn Hans Hrows)
    as [Hnone Hlen].
  set (preds := predictions (run_batched predict X_pred batch_size ep).1) in *.
  pose proof (Z_div_mod_eq_full (shape0 X_pred) batch_size) as Hdm.
  pose proof (Z.mod_pos_bound (shape0 X_pred) batch_size Hb) as Hr.
  assert (H0 : 0 <= shape0 X_pred) by (unfold shape0; lia).
  split; [done|]. split; [lia|].
  unfold validation_cell, list_index.
  destruct (Z.ltb_spec (shape0 X_pred) batch_size) as [Hsmall|Hbig].
  - rewrite Z.div_small in Hlen by lia.
    destruct preds; [done|simpl in Hlen; lia].
  - assert (1 <= shape0 X_pred / batch_size) by (apply Z.div_le_lower_bound; lia).
    destruct preds as [|p preds'] eqn:Hp; [simpl in Hlen; nia|].
    cbn [lookup list_lookup]. rewrite <- Hp in *. clear Hp.
    assert (HlenY : Z.of_nat (length Y_pred) = shape0 X_pred) by (unfold shape0; lia).
    assert (Hne : length Y_pred <> length preds) by lia.
    assert (H1 : length preds <> 1%nat).
    { intros H1. rewrite H1 in Hlen.
      assert (batch_size = 1) as -> by nia. by rewrite Z.mod_1_r in Hmod. }
    assert (H2 : length Y_pred <> 1%nat) by nia.
    unfold accuracy, np_equal. rewrite decide_False by done.
    destruct Y_pred as [|y [|y' Y']]; [simpl in HlenY; lia|done|].
    destruct preds as [|q [|q' P']]; [simpl in Hlen; nia|done|].
    destruct shape_mismatch_raises; [done|].
    cbn [np_sum Z.b2z]. unfold np_true_divide.
    destruct (Z.eqb_spec (Z.of_nat (length (y :: y' :: Y'))) 0) as [E|_];
      [simpl in E; lia|].
    by rewrite (int_to_double_small 0).
Qed.
End LoopThenValidation.

(** Five rows in batches of one. *)
Lemma validation_after_full_batches_witness :
  (0 < 1 /\ 0 < shape0 demo_dataset < 2 ^ 53 /\ shape0 demo_dataset mod 1 = 0 /\
   length [8; 5; 11; 7; 0] = length (rows demo_dataset) /\
   answers stub_predict 0%nat (planned_calls demo_dataset 1 (shape0 demo_dataset / 1))
   = inr <$> ((fun r => [stub_result r]) <$> demo_rows) /\
   Forall2 (fun B R => length R = length (rows B))
     (planned_calls demo_dataset 1 (shape0 demo_dataset / 1))
     ((fun r => [stub_result r]) <$> demo_rows)) /\
  length (predictions (run_batched stub_predict demo_dataset 1 0%nat).1)
  = length [8; 5; 11; 7; 0].
Proof.
  assert (H1 : 0 < 1) by lia.
  assert (H2 : 0 < shape0 demo_dataset < 2 ^ 53) by (by vm_compute).
  assert (H3 : shape0 demo_dataset mod 1 = 0) by reflexivity.
  assert (H4 : length [8; 5; 11; 7; 0] = length (rows demo_dataset)) by reflexivity.
  assert (H5 : answers stub_predict 0%nat
                 (planned_calls demo_dataset 1 (shape0 demo_dataset / 1))
               = inr <$> ((fun r => [stub_result r]) <$> demo_rows)) by (by vm_compute).
  assert (H6 : Forall2 (fun B R => length R = length (rows B))
     (planned_calls demo_dataset 1 (shape0 demo_dataset / 1))
     ((fun r => [stub_result r]) <$> demo_rows)) by (vm_compute; repeat constructor).
  split; [done|].
  apply (validation_after_full_batches stub_predict true demo_dataset [8; 5; 11; 7; 0] 1
           0%nat _ H1 H2 H3 H4 H5 H6).
Defined.

(** Five rows in batches of two: four predictions against five labels. *)
Lemma validation_after_partial_batch_witness :
  (0 < 2 /\ shape0 demo_dataset < 2 ^ 53 /\ shape0 demo_dataset mod 2 <> 0 /\
   length [8; 5; 11; 7; 0] = length (rows demo_dataset) /\
   answers stub_predict 0%nat (planned_calls demo_dataset 2 (shape0 demo_dataset / 2))
   = inr <$> [stub_result <$> take 2 demo_rows; stub_result <$> take 2 (drop 2 demo_rows)] /\
   Forall2 (fun B R => length R = length (rows B))
     (planned_calls demo_dataset 2 (shape0 demo_dataset / 2))
     [stub_result <$> take 2 demo_rows; stub_result <$> take 2 (drop 2 demo_rows)]) /\
  validation_cell true [8; 5; 11; 7; 0]
    (predictions (run_batched stub_predict demo_dataset 2 0%nat).1)
  = inl (inr ValueError).
Proof.
  assert (H1 : 0 < 2) by lia.
  assert (H2 : shape0 demo_dataset < 2 ^ 53) by (by vm_compute).
  assert (H3 : shape0 demo_dataset mod 2 <> 0) by (by vm_compute).
  assert (H4 : length [8; 5; 11; 7; 0] = length (rows demo_dataset)) by reflexivity.
  assert (H5 : answers stub_predict 0%nat
                 (planned_calls demo_dataset 2 (shape0 demo_dataset / 2))
               = inr <$> [stub_result <$> take 2 demo_rows;
                          stub_result <$> take 2 (drop 2 demo_rows)]) by (by vm_compute).
  assert (H6 : Forall2 (fun B R => length R = length (rows B))
     (planned_calls demo_dataset 2 (shape0 demo_dataset / 2))
     [stub_result <$> take 2 demo_rows; stub_result <$> take 2 (drop 2 demo_rows)])
    by (vm_compute; repeat constructor).
  split; [done|].
  apply (validation_after_partial_batch stub_predict true demo_dataset [8; 5; 11; 7; 0] 2
           0%nat _ H1 H2 H3 H4 H5 H6).
Defined.

(** ** Slices *)

Lemma py_slice_lookup {A} (l : list A) (a b : Z) (i : nat) :
  0 <= a -> 0 <= b ->
  py_slice l a b !! i = if decide (a + Z.of_nat i < b) then l !! (Z.to_nat a + i)%nat else None.
Proof.
  intros Ha Hb. unfold py_slice.
  destruct (Z.ltb_spec a 0), (Z.ltb_spec b 0); try lia.
  set (n := Z.of_nat (length l)).
  destruct (decide (a + Z.of_nat i < b)) as [Hi|Hi].
  - destruct (decide (a + Z.of_nat i < n)) as [Hin|Hin].
    + rewrite lookup_take_lt by lia. rewrite lookup_drop. f_equal. lia.
    + rewrite (lookup_ge_None_2 l) by (unfold n in *; lia).
      apply lookup_ge_None_2. rewrite length_take, length_drop. unfold n in *. lia.
  - apply lookup_ge_None_2. rewrite length_take, length_drop. unfold n in *. lia.
Qed.

Lemma py_slice_from_0 {A} (l : list A) (m : Z) :
  py_slice l 0 m
  = take (Z.to_nat (if m <? 0 then Z.max (m + Z.of_nat (length l)) 0
                    else Z.min m (Z.of_nat (length l)))) l.
Proof.
  unfold py_slice. change (0 <? 0) with false. cbn iota.
  rewrite (Z.min_l 0) by lia. by rewrite Z.sub_0_r.
Qed.

Lemma py_slice_middle {A} (a m b : list A) :
  b <> [] ->
  py_slice (a ++ m ++ b) (Z.of_nat (length a)) (- Z.of_nat (length b)) = m.
Proof.
  intros Hb. assert (0 < length b)%nat by (destruct b; [done|simpl; lia]).
  unfold py_slice. rewrite !length_app.
  destruct (Z.ltb_spec (Z.of_nat (length a)) 0); [lia|].
  destruct (Z.ltb_spec (- Z.of_nat (length b)) 0); [|lia].
  rewrite Z.min_l, Z.max_l by lia. rewrite Nat2Z.id, drop_app_length.
  replace (Z.to_nat _) with (length m) by lia.
  by rewrite take_app_length.
Qed.

Lemma length_py_slice_7_2 {A} (l : list A) :
  length (py_slice l 7 (-2)) = (length l - 9)%nat.
Proof.
  unfold py_slice. change (7 <? 0) with false. change (-2 <? 0) with true. cbn iota.
  rewrite length_take, length_drop. lia.
Qed.

Lemma list_ascii_of_string_app (s1 s2 : string) :
  String.list_ascii_of_string (s1 +:+ s2)
  = String.list_ascii_of_string s1 ++ String.list_ascii_of_string s2.
Proof. induction s1 as [|c s1 IH]; [done|]. simpl. by rewrite IH. Qed.

Lemma length_list_ascii_of_string (s : string) :
  length (String.list_ascii_of_string s) = String.length s.
Proof. induction s as [|c s IH]; [done|]. simpl. by rewrite IH. Qed.

(** ** The upload helper: every outcome *)

(** X9.  The helper has three outcomes.  If the serializer raises, nothing
    leaves the process; if S3 rejects the upload, its exception is the
    result; an address is returned only after an accepted upload of the whole
    stream.  In no case is there more than one upload or a write to disk. *)
Theorem writeDatasetToProtobuf_outcomes {Label : Type}
    (write_spmatrix_to_sparse_tensor : SparseMatrix -> list Label -> exn + list Byte.byte)
    (s3_answer : string -> string -> list Byte.byte -> option exn)
    (X : SparseMatrix) (y : list Label) (bucket prefix key : string) :
  (forall e, write_spmatrix_to_sparse_tensor X y = inl e ->
     writeDatasetToProtobuf write_spmatrix_to_sparse_tensor s3_answer X y bucket prefix key
     = ([], inl e))
  /\ (forall stream e,
        write_spmatrix_to_sparse_tensor X y = inr stream ->
        s3_answer bucket (prefix +:+ "/" +:+ key) stream = Some e ->
        writeDatasetToProtobuf write_spmatrix_to_sparse_tensor s3_answer X y bucket prefix key
        = ([S3Upload bucket (prefix +:+ "/" +:+ key) stream], inl e))
  /\ (forall uri,
        (writeDatasetToProtobuf write_spmatrix_to_sparse_tensor s3_answer X y
           bucket prefix key).2 = inr uri ->
        exists stream,
          write_spmatrix_to_sparse_tensor X y = inr stream /\
          s3_answer bucket (prefix +:+ "/" +:+ key) stream = None /\
          (writeDatasetToProtobuf write_spmatrix_to_sparse_tensor s3_answer X y
             bucket prefix key).1 = [S3Upload bucket (prefix +:+ "/" +:+ key) stream] /\
          uri = ("s3://" +:+ bucket +:+ "/" +:+ prefix +:+ "/" +:+ key)%string)
  /\ (length (writeDatasetToProtobuf write_spmatrix_to_sparse_tensor s3_answer X y
                bucket prefix key).1 <= 1)%nat
  /\ Forall (fun ev => forall path body, ev <> DiskWrite path body)
       (writeDatasetToProtobuf write_spmatrix_to_sparse_tensor s3_answer X y
          bucket prefix key).1.
Proof.
  unfold writeDatasetToProtobuf.
  destruct (write_spmatrix_to_sparse_tensor X y) as [e|stream].
  { split; [by intros ? [= ->]|]. split; [done|]. split; [done|]. split; [simpl; lia|done]. }
  cbn zeta. rewrite bytesio_fresh_write_seek_read.
  destruct (s3_answer bucket (prefix +:+ "/" +:+ key) stream) as [e|] eqn:Hs3.
  - split; [done|]. split.
    { intros ? ? [= <-] He. rewrite Hs3 in He. by injection He as ->. }
    split; [done|]. split; [simpl; lia|]. by repeat constructor.
  - split; [done|]. split.
    { intros ? ? [= <-] He. by rewrite Hs3 in He. }
    split.
    { intros uri [= <-]. by exists stream. }
    split; [simpl; lia|]. by repeat constructor.
Qed.

Example bytesio_write_beyond_end :
  bytesio_write {| content := [Byte.x01; Byte.x02]; position := 5 |} [Byte.xaa]
  = {| content := [Byte.x01; Byte.x02; Byte.x00; Byte.x00; Byte.x00; Byte.xaa];
       position := 6 |}.
Proof. reflexivity. Qed.

Lemma bytesio_write_at_end (acc data : list Byte.byte) :
  bytesio_write {| content := acc; position := length acc |} data
  = {| content := acc ++ data; position := length (acc ++ data) |}.
Proof.
  unfold bytesio_write. cbn [content position].
  rewrite firstn_all, Nat.sub_diag, drop_ge by lia.
  cbn [replicate app]. by rewrite app_nil_r, length_app.
Qed.

Lemma bytesio_writes_at_end (chunks : list (list Byte.byte)) (acc : list Byte.byte) :
  foldl bytesio_write {| content := acc; position := length acc |} chunks
  = {| content := acc ++ concat chunks; position := length (acc ++ concat chunks) |}.
Proof.
  revert acc. induction chunks as [|c chunks IH]; intros acc; cbn [foldl concat].
  - by rewrite app_nil_r.
  - by rewrite bytesio_write_at_end, IH, app_assoc.
Qed.

(** X10.  A write to a buffer, at any position, is found again by a reader
    that seeks back to where the write began, and not by one that stays
    where the write ended.  For the fresh buffer of the helper: in however
    many writes the serializer delivers its stream, [seek(0)] and a read
    give the whole stream, and a read without the seek gives nothing. *)
Theorem bytesio_write_seek_read :
  (forall (buf : BytesIO) (data : list Byte.byte),
     take (length data)
       (bytesio_read (bytesio_seek (bytesio_write buf data) (position buf))) = data /\
     bytesio_read (bytesio_write buf data)
     = drop (position buf + length data) (content buf))
  /\ (forall chunks : list (list Byte.byte),
        bytesio_read
          (bytesio_seek (foldl bytesio_write {| content := []; position := 0 |} chunks) 0)
        = concat chunks /\
        bytesio_read (foldl bytesio_write {| content := []; position := 0 |} chunks) = []).
Proof.
  split.
  - intros buf data. unfold bytesio_read, bytesio_seek, bytesio_write.
    cbn [content position].
    assert (Hlen : length (take (position buf) (content buf)
                           ++ replicate (position buf - length (content buf)) Byte.x00)
                   = position buf)
      by (rewrite length_app, length_take, length_replicate; lia).
    split.
    + rewrite app_assoc, drop_app_length' by done. by rewrite take_app_length.
    + rewrite !app_assoc, drop_app_length' by (rewrite length_app; lia). done.
  - intros chunks.
    change {| content := []; position := 0 |}
      with {| content := []; position := length (@nil Byte.byte) |}.
    rewrite (bytesio_writes_at_end chunks []). unfold bytesio_read, bytesio_seek.
    cbn [content position app]. split; [done|]. by rewrite drop_all.
Qed.

(** ** Configuration *)

Lemma region_name_cases (session_region : option string) :
  exists r, region_name session_region = inr r /\ r ∈ available_regions.
Proof.
  unfold region_name. destruct session_region as [s|].
  - destruct (decide (s ∈ available_regions)) as [Hin|Hout].
    + rewrite bool_decide_eq_true_2 by done. by exists s.
    + rewrite bool_decide_eq_false_2 by done. exists "us-east-1"%string.
      split; [done|]. by vm_compute; left.
  - exists "us-east-1"%string. split; [done|]. by vm_compute; left.
Qed.

(** X11.  Whatever region the session reports, and also when it reports none,
    the region after cell 10 is one of the four listed: the session's own
    when it is listed, and [us-east-1] otherwise. *)
Theorem region_name_is_available (session_region : option string) :
  exists r,
    region_name session_region = inr r /\
    r ∈ available_regions /\
    (forall s, session_region = Some s -> s ∈ available_regions -> r = s) /\
    ((forall s, session_region = Some s -> s ∉ available_regions) -> r = "us-east-1"%string).
Proof.
  unfold region_name. destruct session_region as [s|].
  - destruct (decide (s ∈ available_regions)) as [Hin|Hout].
    + rewrite bool_decide_eq_true_2 by done. exists s.
      split; [done|]. split; [done|]. split; [by intros ? [= <-]|].
      intros Hno. by destruct (Hno s eq_refl).
    + rewrite bool_decide_eq_false_2 by done. exists "us-east-1"%string.
      split; [done|]. split; [by vm_compute; left|].
      split; [by intros ? [= <-]|done].
  - exists "us-east-1"%string. split; [done|]. split; [by vm_compute; left|]. done.
Qed.

Lemma training_image_cases (region : string) :
  ((region = "us-west-2"%string \/ region = "us-east-1"%string \/
    region = "us-east-2"%string \/ region = "eu-west-1"%string) /\
   (exists account,
      String.length account = 12%nat /\
      training_image region
      = inr (account +:+ ".dkr.ecr." +:+ region
             +:+ ".amazonaws.com/factorization-machines:latest")%string))
  \/ ((region ∉ available_regions) /\ training_image region = inl KeyError).
Proof.
  destruct (decide (region = "us-west-2"%string)) as [->|H1].
  { left. split; [tauto|]. by exists "174872318107"%string. }
  destruct (decide (region = "us-east-1"%string)) as [->|H2].
  { left. split; [tauto|]. by exists "382416733822"%string. }
  destruct (decide (region = "us-east-2"%string)) as [->|H3].
  { left. split; [tauto|]. by exists "404615174143"%string. }
  destruct (decide (region = "eu-west-1"%string)) as [->|H4].
  { left. split; [tauto|]. by exists "438346466558"%string. }
  right. split.
  - unfold available_regions. rewrite !elem_of_cons, elem_of_nil. tauto.
  - unfold training_image, dict_index, fm_containers. cbn [list_to_map foldr uncurry].
    by rewrite !lookup_insert_ne, lookup_empty by done.
Qed.

(** X12.  The table of containers has an image for exactly the regions that
    cell 10 lists, so after cell 10 the lookup of cell 38 never raises
    [KeyError]; the image it finds is the one of that region. *)
Theorem training_image_defined_on_available_regions :
  (forall region,
     region ∈ available_regions <-> exists image, training_image region = inr image)
  /\ (forall region,
        region ∉ available_regions <-> training_image region = inl KeyError)
  /\ (forall session_region, exists region account,
        region_name session_region = inr region /\
        String.length account = 12%nat /\
        training_image region
        = inr (account +:+ ".dkr.ecr." +:+ region
               +:+ ".amazonaws.com/factorization-machines:latest")%string).
Proof.
  assert (Hin : forall region,
            region = "us-west-2"%string \/ region = "us-east-1"%string \/
            region = "us-east-2"%string \/ region = "eu-west-1"%string ->
            region ∈ available_regions).
  { intros region. unfold available_regions. rewrite !elem_of_cons, elem_of_nil. tauto. }
  split; [|split].
  - intros region.
    destruct (training_image_cases region) as [[Hr (account & _ & ->)]|[Hout ->]].
    + split; [by eexists|]. intros _. by apply Hin.
    + split; [done|]. by intros [? ?].
  - intros region.
    destruct (training_image_cases region) as [[Hr (account & _ & ->)]|[Hout ->]].
    + split; [|done]. intros Hout. by destruct Hout; apply Hin.
    + done.
  - intros session_region.
    destruct (region_name_cases session_region) as (r & Hr & Havail).
    destruct (training_image_cases r) as [[_ (account & Hlen & Himg)]|[Hout _]]; [|done].
    by exists r, account.
Qed.

(** ** The execution role *)

Lemma str_slice_middle (pre mid suf : string) :
  String.length pre = 7%nat -> String.length suf = 2%nat ->
  str_slice (pre +:+ mid +:+ suf) 7 (-2) = mid.
Proof.
  intros Hpre Hsuf. unfold str_slice.
  rewrite !list_ascii_of_string_app.
  rewrite <- length_list_ascii_of_string in Hpre, Hsuf.
  change 7 with (Z.of_nat 7). change (-2) with (- Z.of_nat 2).
  rewrite <- Hpre, <- Hsuf.
  rewrite py_slice_middle.
  - apply String.string_of_list_ascii_of_string.
  - intros Hnil. by rewrite Hnil in Hsuf.
Qed.

(** X13.  Outside a notebook instance the role is the first line of the shell
    output without its first seven and its last two characters, which for a
    line of the form ["Arn":"<arn>",] is the ARN; the remaining lines are not
    looked at, and the role found is printed. *)
Theorem get_sagemaker_role_extracts_arn (pre arn suf : string) (others : list string) :
  String.length pre = 7%nat -> String.length suf = 2%nat ->
  get_sagemaker_role None ((pre +:+ arn +:+ suf)%string :: others)
  = ([("Found potential SageMaker service role: " +:+ arn)%string], inr arn).
Proof.
  intros Hpre Hsuf. unfold get_sagemaker_role, list_index. cbn [lookup list_lookup].
  by rewrite str_slice_middle.
Qed.

(** X14.  The fallback does not check what the shell printed.  With no
    matching role the function ends in [IndexError], raised inside the
    handler; with a first line of nine characters or fewer it returns the
    empty string as the role; in general the role has nine characters fewer
    than the line.  Inside a notebook instance the shell output plays no
    part. *)
Theorem get_sagemaker_role_unchecked_fallback :
  get_sagemaker_role None [] = ([], inl IndexError)
  /\ (forall line others role,
        (get_sagemaker_role None (line :: others)).2 = inr role ->
        String.length role = (String.length line - 9)%nat)
  /\ (forall line others,
        (String.length line <= 9)%nat ->
        (get_sagemaker_role None (line :: others)).2 = inr ""%string)
  /\ (forall role list_roles,
        get_sagemaker_role (Some role) list_roles = ([], inr role)).
Proof.
  assert (Hlen : forall line, String.length (str_slice line 7 (-2))
                              = (String.length line - 9)%nat).
  { intros line. unfold str_slice.
    rewrite <- length_list_ascii_of_string, String.list_ascii_of_string_of_list_ascii.
    by rewrite length_py_slice_7_2, length_list_ascii_of_string. }
  split; [done|]. split; [|split; [|done]].
  - intros line others role [= <-]. apply Hlen.
  - intros line others Hshort. cbn. f_equal.
    specialize (Hlen line). destruct (str_slice line 7 (-2)); [done|simpl in Hlen; lia].
Qed.

(** ** The automatic conversion *)

Lemma dense_row_lookup ncols r (j : Z) :
  0 <= j < ncols ->
  dense_row ncols r !! Z.to_nat j
  = Some match list_find (fun entry => entry.1 = j) (zip (columns r) (data r)) with
         | Some (_, (_, v)) => v
         | None => 0%Q
         end.
Proof.
  intros Hj. unfold dense_row. rewrite list_lookup_fmap.
  rewrite (lookup_seqZ_lt 0 ncols (Z.to_nat j)) by lia. simpl.
  by rewrite Z2Nat.id by lia.
Qed.

(** X15.  The dense row holds every stored entry at its column and zero at
    every other column, so the conversion loses nothing. *)
Theorem dense_row_keeps_entries (ncols : Z) (r : MatrixRow) :
  NoDup (columns r) ->
  Forall (fun c => 0 <= c < ncols) (columns r) ->
  (forall (i : nat) c v,
     columns r !! i = Some c -> data r !! i = Some v ->
     dense_row ncols r !! Z.to_nat c = Some v)
  /\ (forall j, 0 <= j < ncols -> j ∉ columns r ->
        dense_row ncols r !! Z.to_nat j = Some 0%Q).
Proof.
  intros Hnd Hrange. split.
  - intros i c v Hc Hv.
    rewrite Forall_forall in Hrange.
    rewrite dense_row_lookup by (apply Hrange; by eapply list_elem_of_lookup_2).
    f_equal.
    destruct (list_find (fun entry => entry.1 = c) (zip (columns r) (data r)))
      as [[k [c' v']]|] eqn:Hfind.
    + apply list_find_Some in Hfind as (Hk & Hc' & _). simpl in Hc'. subst c'.
      apply lookup_zip_Some in Hk as [Hck Hvk].
      assert (k = i) as -> by (by eapply NoDup_lookup).
      congruence.
    + exfalso. apply list_find_None in Hfind. rewrite Forall_forall in Hfind.
      apply (Hfind (c, v)); [|done].
      apply list_elem_of_lookup. exists i. by apply lookup_zip_Some.
  - intros j Hj Hout. rewrite dense_row_lookup by done. f_equal.
    destruct (list_find (fun entry => entry.1 = j) (zip (columns r) (data r)))
      as [[k [c' v']]|] eqn:Hfind; [|done].
    exfalso. apply list_find_Some in Hfind as (Hk & Hc' & _). simpl in Hc'. subst c'.
    apply lookup_zip_Some in Hk as [Hck Hvk].
    apply Hout. by eapply list_elem_of_lookup_2.
Qed.

(** X16.  For every [max_records], negative ones included, the rows and the
    labels handed to [record_set] are the same initial segment of the frame
    and of the label column, so every row keeps its own label; for a
    [max_records] that is not negative the segment has
    [min(max_records, len)] rows. *)
Theorem record_data_train_rows_and_labels {Label : Type}
    (X : SparseMatrix) (y : list Label) (max_records : Z) :
  length y = length (rows X) ->
  exists k : nat,
    dataframe_values (row_slice X 0 max_records)
    = dense_row (shape1 X) <$> take k (rows X) /\
    py_slice y 0 max_records = take k y /\
    length (dataframe_values (row_slice X 0 max_records))
    = length (py_slice y 0 max_records) /\
    (0 <= max_records -> Z.of_nat k = Z.min max_records (shape0 X)) /\
    (max_records < 0 -> Z.of_nat k = Z.max (shape0 X + max_records) 0).
Proof.
  intros Hlen.
  exists (Z.to_nat (if max_records <? 0 then Z.max (max_records + shape0 X) 0
                    else Z.min max_records (shape0 X))).
  unfold dataframe_values, row_slice. cbn [rows shape1].
  rewrite !py_slice_from_0, Hlen. fold (shape0 X).
  split; [done|]. split; [done|].
  split; [by rewrite length_fmap, !length_take, Hlen|].
  unfold shape0.
  destruct (Z.ltb_spec max_records 0); split; lia.
Qed.

(** ** The spot check *)
Section SpotCheck.
Context {Label Endpoint : Type}.
Variable predict :
  Endpoint -> SparseMatrix -> Endpoint * (string + list (PredictionResult Label)).

(** X17.  The three rows submitted and the three labels printed are those at
    positions 1000, 1001 and 1002, row by row; a data set with 1000 rows or
    fewer is not refused: the endpoint is called with a matrix of no rows. *)
Theorem spot_check_rows_and_labels (X_pred : SparseMatrix) (Y_pred : list Label)
    (ep : Endpoint) :
  length Y_pred = length (rows X_pred) ->
  (spot_check predict X_pred Y_pred ep).1 = predict ep (spot_check_sample X_pred) /\
  shape1 (spot_check_sample X_pred) = shape1 X_pred /\
  length (rows (spot_check_sample X_pred)) = length (spot_check predict X_pred Y_pred ep).2 /\
  (length (rows (spot_check_sample X_pred)) <= 3)%nat /\
  (forall i : nat, (i < 3)%nat ->
     rows (spot_check_sample X_pred) !! i = rows X_pred !! (1000 + i)%nat /\
     (spot_check predict X_pred Y_pred ep).2 !! i = Y_pred !! (1000 + i)%nat) /\
  (shape0 X_pred <= 1000 ->
   spot_check_sample X_pred = {| shape1 := shape1 X_pred; rows := [] |} /\
   (spot_check predict X_pred Y_pred ep).2 = []).
Proof.
  intros Hlen. unfold spot_check, spot_check_sample, row_slice. cbn [fst snd rows shape1].
  split; [done|]. split; [done|].
  assert (Hl : forall {A} (l : list A),
            length (py_slice l 1000 1003)
            = Z.to_nat (Z.min 1003 (Z.of_nat (length l)) - Z.min 1000 (Z.of_nat (length l)))).
  { intros A l. unfold py_slice. change (1000 <? 0) with false.
    change (1003 <? 0) with false. cbn iota. rewrite length_take, length_drop. lia. }
  split; [by rewrite !Hl, Hlen|]. split; [rewrite Hl; lia|]. split.
  - intros i Hi. rewrite !py_slice_lookup by lia.
    rewrite !decide_True by lia. done.
  - unfold shape0. intros Hsmall.
    assert (He : forall {A} (l : list A), (length l <= 1000)%nat -> py_slice l 1000 1003 = []).
    { intros A l Hs. apply length_zero_iff_nil. rewrite Hl. lia. }
    rewrite !He by lia. done.
Qed.
End SpotCheck.

(** ** The upload of the training set *)

(** X18.  Whatever region the session reports, the training set goes to the
    object [protobuf/train] of the bucket
    [sagemaker-workshop-movie-recommender-<region>], with [<region>] one of
    the four of cell 10, and that is the address the cell prints. *)
Theorem train_data_location_address {Label : Type}
    (write_spmatrix_to_sparse_tensor : SparseMatrix -> list Label -> exn + list Byte.byte)
    (s3_answer : string -> string -> list Byte.byte -> option exn)
    (session_region : option string) (X : SparseMatrix) (y : list Label)
    (stream : list Byte.byte) :
  write_spmatrix_to_sparse_tensor X y = inr stream ->
  (forall bucket key, s3_answer bucket key stream = None) ->
  exists region,
    region_name session_region = inr region /\
    region ∈ available_regions /\
    train_data_location write_spmatrix_to_sparse_tensor s3_answer region X y
    = ([S3Upload ("sagemaker-workshop-movie-recommender-" +:+ region) "protobuf/train"
          stream],
       inr ("s3://sagemaker-workshop-movie-recommender-" +:+ region
            +:+ "/protobuf/train")%string).
Proof.
  intros Hser Hs3.
  destruct (region_name_cases session_region) as (region & Hr & Havail).
  exists region. split; [done|]. split; [done|].
  unfold train_data_location, writeDatasetToProtobuf. rewrite Hser.
  cbn zeta. rewrite bytesio_fresh_write_seek_read.
  by rewrite Hs3.
Qed.

(** ** The check on one row *)

Lemma py_slice_first {A} (l : list A) : py_slice l 0 1 = take 1 l.
Proof.
  rewrite py_slice_from_0. change (1 <? 0) with false. cbn iota.
  destruct l as [|x l]; [done|].
  replace (Z.to_nat _) with 1%nat by (simpl length; lia). done.
Qed.

(** X19.  The check submits the first row alone and its loop prints at most
    one line, which sets the first label beside the first result; further
    results for that row are not shown, and without a label or without a
    result the loop prints nothing and raises nothing. *)
Theorem sanity_check_compares_first_row {Label Endpoint : Type}
    (predict : Endpoint -> SparseMatrix -> Endpoint * (string + list (PredictionResult Label)))
    (int_of_label : Label -> exn + Z)
    (X_pred : SparseMatrix) (Y_pred : list Label) (ep : Endpoint) :
  rows (row_slice X_pred 0 1) = take 1 (rows X_pred)
  /\ (length (sanity_check predict int_of_label X_pred Y_pred ep).1.2 <= 1)%nat
  /\ (forall y Y' r R k,
        Y_pred = y :: Y' ->
        (predict ep (row_slice X_pred 0 1)).2 = inr (r :: R) ->
        int_of_label (predicted_label r) = inr k ->
        (sanity_check predict int_of_label X_pred Y_pred ep).1.2
        = [ {| true_label := y; predicted_int := k; printed_score := score r |} ] /\
        (sanity_check predict int_of_label X_pred Y_pred ep).2 = None)
  /\ (forall result,
        (predict ep (row_slice X_pred 0 1)).2 = inr result ->
        Y_pred = [] \/ result = [] ->
        (sanity_check predict int_of_label X_pred Y_pred ep).1.2 = [] /\
        (sanity_check predict int_of_label X_pred Y_pred ep).2 = None).
Proof.
  unfold sanity_check, row_slice. cbn [rows]. rewrite !py_slice_first.
  split; [done|].
  destruct (predict ep {| shape1 := shape1 X_pred; rows := take 1 (rows X_pred) |})
    as [ep' [cause|result]]; cbn [fst snd].
  { split; [simpl; lia|]. split; [done|done]. }
  destruct Y_pred as [|y Y']; [|destruct result as [|r R]].
  - cbn. split; [lia|]. split; [done|]. by intros ? [= <-] _.
  - rewrite take_0 || cbn. cbn. split; [lia|]. split; [done|]. by intros ? [= <-] _.
  - cbn [take zip zip_with print_lines].
    assert (Hz : zip_with pair (take 0 Y') R = []) by (by rewrite take_0).
    destruct (int_of_label (predicted_label r)) as [e|k] eqn:Hk.
    + cbn [fst snd length]. split; [lia|]. split.
      * intros ? ? ? ? ? [= <- <-] [= <- <-]. by rewrite Hk.
      * intros ? [= <-] [|]; done.
    + unfold zip in *. rewrite Hz. cbn [print_lines fst snd length]. split; [lia|]. split.
      * intros ? ? ? ? ? [= <- <-] [= <- <-]. rewrite Hk. by intros [= <-].
      * intros ? [= <-] [|]; done.
Qed.

(** ** Examples *)

(** A line as [aws iam list-roles] prints it. *)
Lemma get_sagemaker_role_extracts_arn_witness :
  (String.length arn_key = 7%nat /\ String.length arn_end = 2%nat) /\
  get_sagemaker_role None [(arn_key +:+ demo_arn +:+ arn_end)%string]
  = ([("Found potential SageMaker service role: " +:+ demo_arn)%string], inr demo_arn).
Proof.
  assert (H1 : String.length arn_key = 7%nat) by reflexivity.
  assert (H2 : String.length arn_end = 2%nat) by reflexivity.
  split; [done|].
  apply (get_sagemaker_role_extracts_arn arn_key demo_arn arn_end [] H1 H2).
Defined.

(** The entry of column 7 in a row over ten columns. *)
Lemma dense_row_keeps_entries_witness :
  (NoDup [1; 7] /\ Forall (fun c => 0 <= c < 10) [1; 7]) /\
  dense_row 10 {| columns := [1; 7]; data := [1%Q; 1%Q] |} !! Z.to_nat 7 = Some 1%Q.
Proof.
  assert (H1 : NoDup [1; 7]) by (exact (bool_decide_unpack (NoDup [1; 7]) I)).
  assert (H2 : Forall (fun c => 0 <= c < 10) [1; 7]) by (repeat constructor; lia).
  split; [done|].
  apply (proj1 (dense_row_keeps_entries 10 {| columns := [1; 7]; data := [1%Q; 1%Q] |}
                  H1 H2) 1%nat 7 1%Q); reflexivity.
Defined.

(** Five rows and [max_records = 1000], the value of the notebook. *)
Lemma record_data_train_rows_and_labels_witness :
  length demo_labels = length (rows demo_dataset) /\
  exists k : nat,
    dataframe_values (row_slice demo_dataset 0 1000)
    = dense_row (shape1 demo_dataset) <$> take k (rows demo_dataset) /\
    py_slice demo_labels 0 1000 = take k demo_labels.
Proof.
  assert (H : length demo_labels = length (rows demo_dataset)) by reflexivity.
  split; [exact H|].
  destruct (record_data_train_rows_and_labels demo_dataset demo_labels 1000 H)
    as (k & Hrows & Hlabels & _).
  by exists k.
Defined.

(** A data set of five rows: nothing to submit and nothing to print. *)
Lemma spot_check_rows_and_labels_witness :
  length demo_labels = length (rows demo_dataset) /\
  length (rows (spot_check_sample demo_dataset))
  = length (spot_check stub_predict demo_dataset demo_labels 0%nat).2.
Proof.
  assert (H : length demo_labels = length (rows demo_dataset)) by reflexivity.
  split; [exact H|].
  apply (spot_check_rows_and_labels stub_predict demo_dataset demo_labels 0%nat H).
Defined.

(** A session in [eu-west-1]. *)
Lemma train_data_location_address_witness :
  (stub_serializer demo_dataset demo_labels
   = inr (flat_map (fun _ => [Byte.x0a; Byte.x23; Byte.xd7; Byte.xce]) demo_labels) /\
   forall bucket key,
     s3_accepts bucket key
       (flat_map (fun _ => [Byte.x0a; Byte.x23; Byte.xd7; Byte.xce]) demo_labels) = None) /\
  exists region,
    region_name (Some "eu-west-1"%string) = inr region /\
    region ∈ available_regions /\
    train_data_location stub_serializer s3_accepts region demo_dataset demo_labels
    = ([S3Upload ("sagemaker-workshop-movie-recommender-" +:+ region) "protobuf/train"
          (flat_map (fun _ => [Byte.x0a; Byte.x23; Byte.xd7; Byte.xce]) demo_labels)],
       inr ("s3://sagemaker-workshop-movie-recommender-" +:+ region
            +:+ "/protobuf/train")%string).
Proof.
  assert (H1 : stub_serializer demo_dataset demo_labels
   = inr (flat_map (fun _ => [Byte.x0a; Byte.x23; Byte.xd7; Byte.xce]) demo_labels))
    by reflexivity.
  assert (H2 : forall bucket key,
     s3_accepts bucket key
       (flat_map (fun _ => [Byte.x0a; Byte.x23; Byte.xd7; Byte.xce]) demo_labels) = None)
    by reflexivity.
  split; [done|].
  apply (train_data_location_address stub_serializer s3_accepts (Some "eu-west-1"%string)
           demo_dataset demo_labels _ H1 H2).
Defined.
